(** * Phase analysis: spike-triggered phases and pairwise phase consistency

    A shallow embedding of [elephant/phase_analysis.py]
    ([spike_triggered_phase] and [pairwise_phase_consistency]) together
    with the properties of the two functions.

    Conventions of the embedding.
    - A Python call either returns a value or raises: [result].
    - Floating-point arithmetic is reached through the interface
      [NumOps]; the functions are written once over that interface and
      are read at two instances: the real numbers [R] (exact arithmetic,
      rounding abstracted away) and IEEE-754 values [spec_float]
      (binary32 / binary64 operations of the standard library, with the
      transcendental functions left as parameters).
    - The arithmetic on times (comparison, difference, quotient and
      the cast to an integer) is reached through the interface
      [TimeOps], read at exact rationals and at binary64 values. The
      times of a call are magnitudes in one common unit; the unit of a
      quantity is a tag that is carried along. *)

From Stdlib Require Import String Bool ZArith QArith List Lia.
From Stdlib Require Import Reals Qreals Psatz.
From Stdlib Require Import SpecFloat.
From Stdlib Require Import Permutation.
Import ListNotations.

Set Implicit Arguments.

(** ** Python results *)

Inductive py_error : Type := ValueError | TypeError | IndexError.

Inductive result (A : Type) : Type :=
| Ok (a : A)
| Raise (e : py_error).

Arguments Ok {A} a.
Arguments Raise {A} e.

Definition bind {A B : Type} (c : result A) (k : A -> result B) : result B :=
  match c with
  | Ok a => k a
  | Raise e => Raise e
  end.

Notation "x <- c ;; k" := (bind c (fun x => k))
  (at level 61, c at next level, right associativity).

(** An argument that is either a bare object or a Python list of them:
    [if not isinstance(x, list): x = [x]]. *)
Inductive arg (A : Type) : Type :=
| Bare (a : A)
| PyList (l : list A).

Definition to_list {A : Type} (x : arg A) : list A :=
  match x with
  | Bare a => [a]
  | PyList l => l
  end.

(** ** Numeric interface

    [f_add], [f_sub], [f_mul], [f_div] are the double-precision
    operations; [f_add32] and [f_mul32] the single-precision ones
    ([np.multiply(..., dtype=np.float32)] and arithmetic on the resulting
    float32 arrays). *)

Class NumOps (F : Type) : Type := {
  f_zero : F;
  f_one : F;
  f_add : F -> F -> F;
  f_sub : F -> F -> F;
  f_mul : F -> F -> F;
  f_div : F -> F -> F;
  f_add32 : F -> F -> F;
  f_mul32 : F -> F -> F;
  f_cos : F -> F;
  f_sin : F -> F;
  f_arctan2 : F -> F -> F;
  f_hypot : F -> F -> F;
  f_of_Z : Z -> F
}.

(** ** Arrays *)

(** A one- or more-dimensional [np.ndarray]: its shape and its elements
    in row-major order. *)
Record ndarray (F : Type) : Type := mk_ndarray {
  shape : list nat;
  flat : list F
}.

Definition ndim {F : Type} (a : ndarray F) : nat := length (shape a).

Definition array1d {F : Type} (l : list F) : ndarray F :=
  mk_ndarray [length l] l.

(** What a Python list handed to [pairwise_phase_consistency] can hold:
    an [np.ndarray] of floats or an object that is no array (a list, a
    tuple, a number, ...). Arrays of another dtype (strings, objects,
    complex numbers) are outside the embedding. *)
Inductive pyobj (F : Type) : Type :=
| PyArray (a : ndarray F)
| PyOther.

Arguments PyOther {F}.

(** A two-dimensional array seen through its index function. *)
Record matrix (F : Type) : Type := mk_matrix {
  nrows : nat;
  ncols : nat;
  get : nat -> nat -> F
}.

Section Matrix.
Context {F : Type}.

(** [np.broadcast_to(v, (r, c))] for a one-dimensional [v]: every row
    is [v]. *)
Definition broadcast_to (d : F) (v : list F) (r c : nat) : matrix F :=
  mk_matrix r c (fun _ k => nth k v d).

(** [m.T] *)
Definition transpose (m : matrix F) : matrix F :=
  mk_matrix (ncols m) (nrows m) (fun j k => get m k j).

(** Element-wise binary operation on arrays of one shape. *)
Definition zip_with (op : F -> F -> F) (a b : matrix F) : matrix F :=
  mk_matrix (nrows a) (ncols a) (fun j k => op (get a j k) (get b j k)).

(** [np.fill_diagonal(m, val)] *)
Definition fill_diagonal (m : matrix F) (val : F) : matrix F :=
  mk_matrix (nrows m) (ncols m)
            (fun j k => if Nat.eqb j k then val else get m j k).

(** The index pairs of an [r]-by-[c] array in row-major order. *)
Definition indices (r c : nat) : list (nat * nat) :=
  list_prod (seq 0 r) (seq 0 c).

(** The elements in row-major order. *)
Definition entries (m : matrix F) : list F :=
  map (fun jk => get m (fst jk) (snd jk)) (indices (nrows m) (ncols m)).
End Matrix.

(** ** [pairwise_phase_consistency] *)

Section PPC.
Context {F : Type} {ops : NumOps F}.

(** The validation loop over the normalised input (which is a list,
    so that the test [isinstance(phases, (list, tuple))] in front of
    the loop cannot fail). The arrays the loop accepted are handed
    on. *)
Fixpoint check_arrays (phases : list (pyobj F)) : result (list (ndarray F)) :=
  match phases with
  | [] => Ok []
  | PyOther :: _ => Raise TypeError
  | PyArray a :: rest =>
      if negb (Nat.eqb (ndim a) 1) then Raise ValueError
      else rest' <- check_arrays rest ;; Ok (a :: rest')
  end.

(** [np.hstack] of one-dimensional arrays: their concatenation;
    [np.hstack([])] raises [ValueError] (need at least one array to
    concatenate). *)
Definition hstack (arrays : list (ndarray F)) : result (list F) :=
  match arrays with
  | [] => Raise ValueError
  | _ => Ok (concat (map (@flat F) arrays))
  end.

(** [np.sum] of a float32 array. The entries are added from left to
    right; numpy adds the entries of a long array pairwise in blocks,
    which gives the same sum in exact arithmetic and on an array of at
    most one entry. *)
Definition np_sum (l : list F) : F := fold_left f_add32 l f_zero.

(** The matrix [dot_prod] after its diagonal was zeroed. *)
Definition dot_prod (phase_array : list F) : matrix F :=
  let n_trials := length phase_array in
  let p_cos_2d :=
    broadcast_to f_zero (map f_cos phase_array) n_trials n_trials in
  let p_sin_2d :=
    broadcast_to f_zero (map f_sin phase_array) n_trials n_trials in
  fill_diagonal
    (zip_with f_add32
       (zip_with f_mul32 p_cos_2d (transpose p_cos_2d))
       (zip_with f_mul32 p_sin_2d (transpose p_sin_2d)))
    f_zero.

(** The function returns a float, or Python's [None] (a bare
    [return], or falling off the end). *)
Definition pairwise_phase_consistency
           (phases : arg (pyobj F)) (method : string)
  : result (option F) :=
  let phases := to_list phases in
  arrays <- check_arrays phases ;;
  if negb (existsb (String.eqb method) ["ppc0"%string]) then Raise ValueError
  else
    phase_array <- hstack arrays ;;
    let n_trials := Z.of_nat (length phase_array) in
    let d := dot_prod phase_array in
    if String.eqb method "ppc0" then
      Ok (Some (f_div (np_sum (entries d))
                      (f_of_Z (n_trials * n_trials - n_trials))))
    else if String.eqb method "ppc1" then Ok None
    else Ok None.
End PPC.

(** ** Times *)

(** The arithmetic the function carries out on times: [t_le] and [t_lt]
    are [<=] and [<], [t_sub] and [t_div] are [-] and [/], [t_trunc] is
    [astype(int)] and [t_zero] is the time [0]. *)
Class TimeOps (Tm : Type) : Type := {
  t_zero : Tm;
  t_le : Tm -> Tm -> bool;
  t_lt : Tm -> Tm -> bool;
  t_sub : Tm -> Tm -> Tm;
  t_div : Tm -> Tm -> Tm;
  t_trunc : Tm -> Z
}.

(** The magnitude of a quotient of times, as a value the arithmetic on
    the samples works with. *)
Class TimeValue (Tm F : Type) : Type := {
  t_to_F : Tm -> F
}.

(** ** Signals, spike trains and quantities *)

(** A complex sample. *)
Record complex (F : Type) : Type := mk_complex {
  re : F;
  im : F
}.

(** A single-channel analytic signal ([neo.AnalogSignal]). The
    attributes [t_start], [t_stop] and [sampling_period] are the values
    the object hands out; [points] holds, per time step, the entry of
    [times] and the complex sample, so that [times] and the signal have
    the same length. The times are magnitudes in the unit of the spike
    trains the signal is compared with: no time is rescaled and the
    quotient of two time differences has no unit. *)
Record AnalogSignal (Tm F : Type) : Type := mk_signal {
  t_start : Tm;
  t_stop : Tm;
  sampling_period : Tm;
  points : list (Tm * complex F);
  sig_units : string
}.

Definition samples {Tm F : Type} (s : AnalogSignal Tm F) : list (complex F) :=
  map snd (points s).

Definition times {Tm F : Type} (s : AnalogSignal Tm F) : list Tm :=
  map fst (points s).

(** A spike train ([neo.SpikeTrain]): the event times and their unit. *)
Record SpikeTrain (Tm : Type) : Type := mk_spiketrain {
  spikes : list Tm;
  st_units : string
}.

(** A scalar with a unit, and an array with a unit ([pq.Quantity]). *)
Record scalar_quantity (A : Type) : Type := mk_scalar {
  value : A;
  units : string
}.

Record Quantity (A : Type) : Type := mk_quantity {
  magnitude : list A;
  q_units : string
}.

(** ** Indexing *)

(** [l[i]] on a Python list with a non-negative index. *)
Definition py_getitem {A : Type} (l : list A) (i : nat) : result A :=
  match nth_error l i with
  | Some a => Ok a
  | None => Raise IndexError
  end.

(** [a[i]] on an array with an integer index: a negative index counts
    from the end, an index out of range raises. *)
Definition np_getitem {A : Type} (l : list A) (i : Z) : result A :=
  let n := Z.of_nat (length l) in
  let i' := if (i <? 0)%Z then (i + n)%Z else i in
  if ((0 <=? i') && (i' <? n))%Z then py_getitem l (Z.to_nat i')
  else Raise IndexError.

(** ** [spike_triggered_phase] *)

Section SpikeTriggeredPhase.
Context {Tm F : Type} {ops : NumOps F}.
Context {tops : TimeOps Tm} {tval : TimeValue Tm F}.

(** [start <= t] and [t < stop] *)
Definition in_window (start stop t : Tm) : bool :=
  t_le start t && t_lt t stop.

(** [np.where(np.logical_and(spiketrain >= start, spiketrain < stop))[0]]:
    the positions of the spikes inside the window, in increasing
    order. *)
Definition sttimeind (spiketrain : list Tm) (start stop : Tm) : list nat :=
  filter (fun i => in_window start stop (nth i spiketrain t_zero))
         (seq 0 (length spiketrain)).

(** The index into the signal for a spike at time [t]:
    [((t - t_start) / sampling_period).simplified.magnitude.astype(int)]. *)
Definition sample_index (ht : AnalogSignal Tm F) (t : Tm) : Z :=
  t_trunc (t_div (t_sub t (t_start ht)) (sampling_period ht)).

(** [np.angle] and [np.abs] of a complex number. *)
Definition angle (c : complex F) : F := f_arctan2 (im c) (re c).
Definition c_abs (c : complex F) : F := f_hypot (re c) (im c).

(** [np.exp(np.complex(0, p))] *)
Definition exp_i (p : F) : complex F := mk_complex (f_cos p) (f_sin p).

Definition c_add (a b : complex F) : complex F :=
  mk_complex (f_add (re a) (re b)) (f_add (im a) (im b)).

Definition c_mul (a b : complex F) : complex F :=
  mk_complex (f_sub (f_mul (re a) (re b)) (f_mul (im a) (im b)))
             (f_add (f_mul (re a) (im b)) (f_mul (im a) (re b))).

(** A real factor is promoted to a complex number before the product. *)
Definition c_scale (a : F) (c : complex F) : complex F :=
  c_mul (mk_complex a f_zero) c.

(** The fractional offset [z] of a spike at time [t] from sample
    [ind_at_spike_j]:
    [(spiketrain[...] - times[ind_at_spike_j]) / sampling_period]. *)
Definition offset (ht : AnalogSignal Tm F) (t : Tm) (ind_at_spike_j : Z)
  : result Tm :=
  tj <- np_getitem (times ht) ind_at_spike_j ;;
  Ok (t_div (t_sub t tj) (sampling_period ht)).

(** Body of the loop over the spikes: the phase and the amplitude
    appended for the spike at time [t] whose sample index is
    [ind_at_spike_j]. *)
Definition spike_sample (interpolate : bool) (ht : AnalogSignal Tm F)
           (t : Tm) (ind_at_spike_j : Z)
  : result (F * scalar_quantity F) :=
  if interpolate
     && (ind_at_spike_j + 1 <? Z.of_nat (length (times ht)))%Z
  then
    z <- offset ht t ind_at_spike_j ;;
    s1 <- np_getitem (samples ht) ind_at_spike_j ;;
    s2 <- np_getitem (samples ht) (ind_at_spike_j + 1) ;;
    let p1 := angle s1 in
    let p2 := angle s2 in
    let interpolation :=
      c_add (c_scale (f_sub f_one (t_to_F z)) (exp_i p1))
            (c_scale (t_to_F z) (exp_i p2)) in
    let p12 := angle interpolation in
    Ok (p12,
        mk_scalar
          (f_add (f_mul (f_sub f_one (t_to_F z)) (c_abs s1))
                 (f_mul (t_to_F z) (c_abs s2)))
          (sig_units ht))
  else
    s1 <- np_getitem (samples ht) ind_at_spike_j ;;
    Ok (angle s1, mk_scalar (c_abs s1) (sig_units ht)).

(** The three lists a spike train's results are appended to. *)
Definition entry_state : Type :=
  (list F * list (scalar_quantity F) * list (scalar_quantity Tm))%type.

(** The loop over [enumerate(ind_at_spike)]; [todo] pairs each
    [sttimeind[spike_i]] with its [ind_at_spike_j]. *)
Fixpoint spikes_loop (interpolate : bool) (ht : AnalogSignal Tm F)
         (spiketrain : SpikeTrain Tm) (todo : list (nat * Z))
         (st : entry_state) : result entry_state :=
  match todo with
  | [] => Ok st
  | (i, ind_at_spike_j) :: todo' =>
      let '(phases, amps, tms) := st in
      let t := nth i (spikes spiketrain) t_zero in
      pa <- spike_sample interpolate ht t ind_at_spike_j ;;
      let phases := phases ++ [fst pa] in
      let amps := amps ++ [snd pa] in
      let tms := tms ++ [mk_scalar t (st_units spiketrain)] in
      spikes_loop interpolate ht spiketrain todo' (phases, amps, tms)
  end.

(** [ind_at_spike]: the sample index of each selected spike. *)
Definition ind_at_spike (ht : AnalogSignal Tm F)
           (spiketrain : SpikeTrain Tm) (idx : list nat) : list Z :=
  map (fun i => sample_index ht (nth i (spikes spiketrain) t_zero)) idx.

(** Which signal a spike train is compared with. *)
Definition phase_index (num_phase spiketrain_i : nat) : nat :=
  if (1 <? num_phase)%nat then spiketrain_i else 0%nat.

(** The lists of per-train results built by the outer loop. *)
Definition results_state : Type :=
  (list (list F) * list (list (scalar_quantity F))
   * list (list (scalar_quantity Tm)))%type.

(** The outer loop over [enumerate(spiketrains)]. *)
Fixpoint trains_loop (interpolate : bool)
         (hilbert_transform : list (AnalogSignal Tm F))
         (todo : list (nat * SpikeTrain Tm)) (st : results_state)
  : result results_state :=
  match todo with
  | [] => Ok st
  | (spiketrain_i, spiketrain) :: todo' =>
      let '(result_phases, result_amps, result_times) := st in
      let start := map (@t_start Tm F) hilbert_transform in
      let stop := map (@t_stop Tm F) hilbert_transform in
      let phase_i :=
        phase_index (length hilbert_transform) spiketrain_i in
      start_i <- py_getitem start phase_i ;;
      stop_i <- py_getitem stop phase_i ;;
      let idx := sttimeind (spikes spiketrain) start_i stop_i in
      ht <- py_getitem hilbert_transform phase_i ;;
      let ind := ind_at_spike ht spiketrain idx in
      e <- spikes_loop interpolate ht spiketrain (combine idx ind)
                       ([], [], []) ;;
      let '(phases, amps, tms) := e in
      trains_loop interpolate hilbert_transform todo'
                  (result_phases ++ [phases], result_amps ++ [amps],
                   result_times ++ [tms])
  end.

(** [enumerate] *)
Definition enumerate {A : Type} (l : list A) : list (nat * A) :=
  combine (seq 0 (length l)) l.

(** [pq.Quantity(entry, units=entry[0].units).flatten()] *)
Definition to_quantity {A : Type} (entry : list (scalar_quantity A))
  : result (Quantity A) :=
  e0 <- py_getitem entry 0 ;;
  Ok (mk_quantity (map (@value A) entry) (units e0)).

Fixpoint convert {A : Type} (l : list (list (scalar_quantity A)))
  : result (list (Quantity A)) :=
  match l with
  | [] => Ok []
  | entry :: rest =>
      q <- to_quantity entry ;;
      rest' <- convert rest ;;
      Ok (q :: rest')
  end.

Definition spike_triggered_phase
           (hilbert_transform : arg (AnalogSignal Tm F))
           (spiketrains : arg (SpikeTrain Tm)) (interpolate : bool)
  : result (list (list F) * list (Quantity F) * list (Quantity Tm)) :=
  let spiketrains := to_list spiketrains in
  let hilbert_transform := to_list hilbert_transform in
  let num_spiketrains := length spiketrains in
  let num_phase := length hilbert_transform in
  if negb (num_spiketrains =? 1)%nat && negb (num_phase =? 1)%nat
     && negb (num_spiketrains =? num_phase)%nat
  then Raise ValueError
  else
    r <- trains_loop interpolate hilbert_transform
                     (enumerate spiketrains) ([], [], []) ;;
    let '(result_phases, result_amps, result_times) := r in
    result_amps <- convert result_amps ;;
    result_times <- convert result_times ;;
    Ok (result_phases, result_amps, result_times).
End SpikeTriggeredPhase.

(** ** The two readings of the numeric interface *)

(** *** Exact arithmetic on the reals *)

(** [np.arctan2(y, x)] for finite arguments: the angle of the point
    [(x, y)], in the interval from [-PI] (excluded) to [PI]. *)
Definition R_arctan2 (y x : R) : R :=
  match total_order_T 0 x with
  | inleft (left _) => atan (y / x)
  | inleft (right _) =>
      if Rlt_dec 0 y then PI / 2
      else if Rlt_dec y 0 then - (PI / 2) else 0
  | inright _ =>
      if Rle_dec 0 y then atan (y / x) + PI else atan (y / x) - PI
  end%R.

Definition R_hypot (x y : R) : R := sqrt (x * x + y * y).

#[export] Instance R_ops : NumOps R := {
  f_zero := 0%R;
  f_one := 1%R;
  f_add := Rplus;
  f_sub := Rminus;
  f_mul := Rmult;
  f_div := Rdiv;
  f_add32 := Rplus;
  f_mul32 := Rmult;
  f_cos := cos;
  f_sin := sin;
  f_arctan2 := R_arctan2;
  f_hypot := R_hypot;
  f_of_Z := IZR
}.

(** *** IEEE-754 values

    Values are [spec_float]s; an operation rounds to the format it is
    carried out in. The transcendental functions of the C library are
    parameters. *)

Section FloatOps.
Variables sf_cos sf_sin : spec_float -> spec_float.
Variables sf_arctan2 sf_hypot : spec_float -> spec_float -> spec_float.

(** Cast to [np.float32]. *)
Definition round32 (x : spec_float) : spec_float :=
  match x with
  | S754_finite s m e => binary_round 24 128 s m e
  | _ => x
  end.

(** A Python [int] promoted to a double. *)
Definition sf_of_Z (z : Z) : spec_float := binary_normalize 53 1024 z 0 false.

Definition SF_ops : NumOps spec_float := {|
  f_zero := S754_zero false;
  f_one := sf_of_Z 1;
  f_add := SFadd 53 1024;
  f_sub := SFsub 53 1024;
  f_mul := SFmul 53 1024;
  f_div := SFdiv 53 1024;
  f_add32 := SFadd 24 128;
  f_mul32 := fun x y => SFmul 24 128 (round32 x) (round32 y);
  f_cos := sf_cos;
  f_sin := sf_sin;
  f_arctan2 := sf_arctan2;
  f_hypot := sf_hypot;
  f_of_Z := sf_of_Z
|}.
End FloatOps.

(** ** The two readings of the arithmetic on times *)

(** *** Exact rationals *)

(** [astype(int)]: truncation toward zero. *)
Definition trunc (q : Q) : Z := Z.quot (Qnum q) (Zpos (Qden q)).

#[export] Instance Q_time : TimeOps Q := {
  t_zero := 0;
  t_le := Qle_bool;
  t_lt := fun a b => negb (Qle_bool b a);
  t_sub := Qminus;
  t_div := Qdiv;
  t_trunc := trunc
}.

#[export] Instance Q_value : TimeValue Q R := {
  t_to_F := Q2R
}.

(** *** binary64

    The magnitudes of the quantities are doubles: comparison,
    difference and quotient are the IEEE-754 operations. *)

(** [astype(int)] on a double: the fraction is dropped; a value that
    is not a number or lies outside the 64-bit integers gives the
    smallest of them (the cast of numpy on x86-64). *)
Definition sf_trunc (x : spec_float) : Z :=
  match x with
  | S754_zero _ => 0
  | S754_finite s m e =>
      let a := Z.shiftl (Zpos m) e in
      let v := if s then (- a)%Z else a in
      if ((- 2 ^ 63 <=? v) && (v <? 2 ^ 63))%Z then v else (- 2 ^ 63)%Z
  | _ => (- 2 ^ 63)%Z
  end.

#[export] Instance B64_time : TimeOps spec_float := {
  t_zero := S754_zero false;
  t_le := SFleb;
  t_lt := SFltb;
  t_sub := SFsub 53 1024;
  t_div := SFdiv 53 1024;
  t_trunc := sf_trunc
}.

(** The real number a finite double stands for; a value that is not
    finite stands for none and is sent to [0]. *)
Definition SF2R (x : spec_float) : R :=
  match x with
  | S754_finite s m e =>
      let a := match e with
               | Zneg p => (IZR (Zpos m) / IZR (Zpos (2 ^ p)))%R
               | _ => IZR (Zpos m * 2 ^ e)
               end in
      if s then (- a)%R else a
  | _ => 0%R
  end.

(** Times in binary64, values in exact arithmetic: the reading that
    keeps which sample is read as the program has it and leaves out
    only the rounding of the values. *)
#[export] Instance B64_value : TimeValue spec_float R := {
  t_to_F := SF2R
}.

(** Times and values in binary64. *)
#[export] Instance B64_float : TimeValue spec_float spec_float := {
  t_to_F := fun z => z
}.

(** The double nearest to the fraction [n / d] of two small integers. *)
Definition b64 (n d : Z) : spec_float :=
  SFdiv 53 1024 (sf_of_Z n) (sf_of_Z d).

(** ** The statistic as the specification words it *)

(** The ordered pairs [(j, k)] of positions below [n] with [j <> k]. *)
Definition ordered_pairs (n : nat) : list (nat * nat) :=
  filter (fun jk => negb (fst jk =? snd jk)%nat) (indices n n).

Definition Rsum (l : list R) : R := fold_right Rplus 0%R l.

(** The sum of [cos (theta_j - theta_k)] over all ordered pairs with
    [j <> k]. *)
Definition pair_cos_sum (theta : list R) : R :=
  Rsum (map (fun jk => cos (nth (fst jk) theta 0 - nth (snd jk) theta 0))%R
            (ordered_pairs (length theta))).

(** [PPC = (1 / (N (N - 1))) * sum] *)
Definition ppc_spec (theta : list R) : R :=
  let N := INR (length theta) in
  (1 / (N * (N - 1)) * pair_cos_sum theta)%R.

(** ** Predicates used by the statements *)

(** The object is a one-dimensional [np.ndarray]. *)
Definition is_array1d {F : Type} (o : pyobj F) : bool :=
  match o with
  | PyArray a => Nat.eqb (ndim a) 1
  | PyOther => false
  end.

(** The integer [k] indexes an array of [n] elements, from the front or
    from the end. *)
Definition valid_index (n : nat) (k : Z) : bool :=
  ((- Z.of_nat n <=? k) && (k <? Z.of_nat n))%Z.

(** The retained events of a spike train compared with a signal: the
    event times [t] with [t_start <= t < t_stop], in their order. *)
Definition retained {Tm F : Type} {tops : TimeOps Tm}
           (ht : AnalogSignal Tm F) (st : SpikeTrain Tm) : list Tm :=
  filter (in_window (t_start ht) (t_stop ht)) (spikes st).

(** Every retained event of the train indexes a sample of the
    signal. *)
Definition indexes_samples {Tm F : Type} {tops : TimeOps Tm}
           (ht : AnalogSignal Tm F) (st : SpikeTrain Tm) : Prop :=
  Forall (fun t => valid_index (length (samples ht)) (sample_index ht t)
                   = true)
         (retained ht st).

(** What one spike train contributes: [ps] holds, in order, the phase
    and the amplitude the loop body yields for each of [events]. *)
Definition train_samples {Tm F : Type} {ops : NumOps F}
           {tops : TimeOps Tm} {tval : TimeValue Tm F}
           (interpolate : bool) (ht : AnalogSignal Tm F)
           (events : list Tm) (ps : list (F * scalar_quantity F)) : Prop :=
  Forall2 (fun t pa =>
             spike_sample interpolate ht t (sample_index ht t) = Ok pa)
          events ps.

(** What the outer loop appends for spike train number [j]: the three
    lists built from the retained events of the train against the
    signal it is compared with. *)
Definition train_entry {Tm F : Type} {ops : NumOps F}
           {tops : TimeOps Tm} {tval : TimeValue Tm F}
           (interpolate : bool)
           (hilbert_transform : list (AnalogSignal Tm F))
           (jst : nat * SpikeTrain Tm)
           (e : list F * list (scalar_quantity F)
                * list (scalar_quantity Tm))
  : Prop :=
  exists ht ps,
    nth_error hilbert_transform
              (phase_index (length hilbert_transform) (fst jst)) = Some ht
    /\ train_samples interpolate ht (retained ht (snd jst)) ps
    /\ e = (map fst ps, map snd ps,
            map (fun t => mk_scalar t (st_units (snd jst)))
                (retained ht (snd jst))).

(** The conversion of one list of scalars into an array: the list is
    not empty, the magnitudes are kept in order and the unit is the one
    of the first element. *)
Definition converted {A : Type} (entry : list (scalar_quantity A))
           (q : Quantity A) : Prop :=
  magnitude q = map (@value A) entry
  /\ exists e0, hd_error entry = Some e0 /\ q_units q = units e0.

(** ** Example data *)

(** Three samples [1], [i], [-1] taken at times [0], [1], [2]: the
    window of the signal is from [0] to [3]. *)
Definition demo_signal : AnalogSignal Q R :=
  mk_signal 0 3 1
            [(0, mk_complex 1%R 0%R); (1, mk_complex 0%R 1%R);
             (2, mk_complex (-1)%R 0%R)]
            "mV".

(** Events at the start of that window, between two samples, on a
    sample, at the end of the window and beyond it. *)
Definition demo_train : SpikeTrain Q :=
  mk_spiketrain [0; 1 # 2; 1; 3; 5] "s".

(** A train with no event inside that window. *)
Definition late_train : SpikeTrain Q := mk_spiketrain [3; 5] "s".

(** A second signal whose window, from [10] to [12], holds none of the
    example events. *)
Definition far_signal : AnalogSignal Q R :=
  mk_signal 10 12 1
            [(10, mk_complex 0%R 1%R); (11, mk_complex 1%R 0%R)] "mV".

(** The array with every phase moved by [phi]. *)
Definition shift_array (phi : R) (a : ndarray R) : ndarray R :=
  mk_ndarray (shape a) (map (fun x => (x + phi)%R) (flat a)).

(** The phases returned by [spike_triggered_phase], as the list of
    arrays handed to [pairwise_phase_consistency]: every entry is a
    flattened, one-dimensional array. *)
Definition as_arrays {F : Type} (P : list (list F)) : list (pyobj F) :=
  map (fun entry => PyArray (array1d entry)) P.

(** A train with one event between the first two samples of the
    example signal and one event after its last sample, inside the
    window. *)
Definition edge_train : SpikeTrain Q := mk_spiketrain [1 # 2; 5 # 2] "s".

(** A signal that keeps one value over its two samples. *)
Definition steady_signal : AnalogSignal Q R :=
  mk_signal 0 2 1
            [(0, mk_complex 0%R 1%R); (1, mk_complex 0%R 1%R)] "mV".

(** A signal of binary64 times: five samples [1], [i], [-1], [-i], [1]
    of an oscillation, taken every [0.1] s from [0.0] s on. The times
    of the samples are [0.0], [1 / 10.0], ..., [4 / 10.0] and the
    signal stops at [5 / 10.0]. *)
Definition grid_signal : AnalogSignal spec_float R :=
  mk_signal (b64 0 10) (b64 5 10) (b64 1 10)
            [(b64 0 10, mk_complex 1%R 0%R);
             (b64 1 10, mk_complex 0%R 1%R);
             (b64 2 10, mk_complex (-1)%R 0%R);
             (b64 3 10, mk_complex 0%R (-1)%R);
             (b64 4 10, mk_complex 1%R 0%R)]
            "mV".

(** One event at [0.3] s, the time of the fourth sample. *)
Definition grid_train : SpikeTrain spec_float :=
  mk_spiketrain [b64 3 10] "s".

(** A train with an event at the start of that signal, one on its
    fourth sample and one at its stop. *)
Definition boundary_train : SpikeTrain spec_float :=
  mk_spiketrain [b64 0 10; b64 3 10; b64 5 10] "s".

(** A train with one event at [0.2] s, the time of the third sample of
    that signal. *)
Definition on_grid_train : SpikeTrain spec_float :=
  mk_spiketrain [b64 2 10] "s".

(** A signal of binary64 times with three samples taken every
    [1 / 3.0] s from [0.0] s on; it stops at [3 / 3.0], that is
    [1.0] s. *)
Definition thirds_signal : AnalogSignal spec_float R :=
  mk_signal (b64 0 3) (b64 3 3) (b64 1 3)
            [(b64 0 3, mk_complex 1%R 0%R);
             (b64 1 3, mk_complex 0%R 1%R);
             (b64 2 3, mk_complex (-1)%R 0%R)]
            "mV".

(** One event at [0.9999999999999999] s, the last double before
    [1.0]. *)
Definition brink_train : SpikeTrain spec_float :=
  mk_spiketrain [S754_finite false 9007199254740991 (-53)] "s".

(** * Properties *)

(** ** The definitions on small inputs *)

Example trunc_toward_zero :
  trunc (-3 # 2) = (-1)%Z /\ trunc (3 # 2) = 1%Z /\ trunc 2 = 2%Z.
Proof. repeat split. Qed.

Example sf_trunc_toward_zero :
  sf_trunc (b64 (-3) 2) = (-1)%Z /\ sf_trunc (b64 3 2) = 1%Z
  /\ sf_trunc (b64 2 1) = 2%Z /\ sf_trunc (b64 1 0) = (- 2 ^ 63)%Z.
Proof. repeat split. Qed.

Example np_getitem_from_the_end :
  np_getitem [10; 20; 30]%Z (-1) = Ok 30%Z
  /\ np_getitem [10; 20; 30]%Z 3 = Raise IndexError
  /\ np_getitem [10; 20; 30]%Z (-4) = Raise IndexError.
Proof. repeat split. Qed.

Example demo_window :
  t_stop demo_signal = 3 /\ times demo_signal = [0; 1; 2].
Proof. split; reflexivity. Qed.

Example demo_selection :
  sttimeind (spikes demo_train) (t_start demo_signal) (t_stop demo_signal)
  = [0; 1; 2]%nat
  /\ retained demo_signal demo_train = [0; 1 # 2; 1]
  /\ map (sample_index demo_signal) (retained demo_signal demo_train)
     = [0; 0; 1]%Z.
Proof. repeat split. Qed.

(** Three spike trains against two signals: the counts differ and
    neither is one. *)
Example cardinality_mismatch :
  spike_triggered_phase (PyList [demo_signal; far_signal])
                        (PyList [demo_train; demo_train; demo_train]) false
  = Raise ValueError.
Proof. reflexivity. Qed.

(** Each train is compared with the one signal. *)
Example one_signal_many_trains :
  exists P A T,
    spike_triggered_phase (Bare demo_signal)
                          (PyList [demo_train; demo_train]) false
    = Ok (P, A, T)
    /\ length P = 2%nat
    /\ map (@magnitude Q) T = [[0; 1 # 2; 1]; [0; 1 # 2; 1]]
    /\ map (@q_units Q) T = ["s"%string; "s"%string]
    /\ map (@q_units R) A = ["mV"%string; "mV"%string].
Proof. do 3 eexists. repeat split. Qed.

Example unknown_method :
  pairwise_phase_consistency (Bare (PyArray (array1d [0%R; 1%R]))) "plv"
  = Raise ValueError.
Proof. reflexivity. Qed.

(** ** Validation and pooling *)

Section PPCFacts.
Context {F : Type} {ops : NumOps F}.

Lemma check_arrays_map (arrays : list (ndarray F)) :
  Forall (fun a => ndim a = 1%nat) arrays ->
  check_arrays (map (@PyArray F) arrays) = Ok arrays.
Proof.
  induction 1 as [|a l Ha _ IH]; simpl; [reflexivity|].
  rewrite Ha, IH. reflexivity.
Qed.

Lemma ppc0_unfold (phases : arg (pyobj F)) (arrays : list (ndarray F)) :
  to_list phases = map (@PyArray F) arrays ->
  Forall (fun a => ndim a = 1%nat) arrays ->
  arrays <> [] ->
  let phase_array := concat (map (@flat F) arrays) in
  let n := Z.of_nat (length phase_array) in
  pairwise_phase_consistency phases "ppc0" =
  Ok (Some (f_div (np_sum (entries (dot_prod phase_array)))
                  (f_of_Z (n * n - n)))).
Proof.
  intros Hl H1 Hne. unfold pairwise_phase_consistency.
  rewrite Hl, (check_arrays_map H1). simpl.
  destruct arrays as [|a l]; [congruence|]. reflexivity.
Qed.

Lemma check_arrays_fault (pre post : list (pyobj F)) (bad : pyobj F) :
  Forall (fun o => is_array1d o = true) pre ->
  is_array1d bad = false ->
  check_arrays (pre ++ bad :: post) =
  Raise (match bad with PyArray _ => ValueError | PyOther => TypeError end).
Proof.
  intros Hpre Hbad. induction Hpre as [|o l Ho _ IH]; simpl.
  - destruct bad as [a|]; [|reflexivity].
    simpl in Hbad. rewrite Hbad. reflexivity.
  - destruct o as [a|]; [|discriminate]. simpl in Ho. rewrite Ho. simpl.
    rewrite IH. reflexivity.
Qed.
End PPCFacts.

(** ** Errors of [pairwise_phase_consistency] *)

(** C6 (as amended). When the normalised input holds an element that
    is not a one-dimensional array, the call raises in the validation
    loop, before the method is looked at and before anything is
    computed; the first such element decides the error: [TypeError]
    when it is not an [np.ndarray], [ValueError] when it is an array
    whose number of dimensions is not one. *)
Theorem ppc_validation_error
        {F : Type} {ops : NumOps F}
        (phases : arg (pyobj F)) (method : string)
        (pre post : list (pyobj F)) (bad : pyobj F) :
  to_list phases = pre ++ bad :: post ->
  Forall (fun o => is_array1d o = true) pre ->
  is_array1d bad = false ->
  pairwise_phase_consistency phases method =
  Raise (match bad with PyArray _ => ValueError | PyOther => TypeError end).
Proof.
  intros Hl Hpre Hbad. unfold pairwise_phase_consistency.
  rewrite Hl, check_arrays_fault by assumption. reflexivity.
Qed.

(** A two-dimensional array behind a valid one, and a tuple passed
    bare. *)
Lemma ppc_validation_error_witness :
  pairwise_phase_consistency
    (PyList [PyArray (array1d [1%R]); PyArray (mk_ndarray [1; 1]%nat [0%R])])
    "ppc0" = Raise ValueError
  /\ pairwise_phase_consistency (Bare (@PyOther R)) "ppc0" = Raise TypeError.
Proof.
  split.
  - apply (@ppc_validation_error R R_ops
             (PyList [PyArray (array1d [1%R]);
                      PyArray (mk_ndarray [1; 1]%nat [0%R])])
             "ppc0"
             [PyArray (array1d [1%R])] []
             (PyArray (mk_ndarray [1; 1]%nat [0%R]))).
    + reflexivity.
    + repeat constructor.
    + reflexivity.
  - apply (@ppc_validation_error R R_ops (Bare PyOther) "ppc0" [] [] PyOther).
    + reflexivity.
    + constructor.
    + reflexivity.
Defined.

(** C6 (as stated) fails: a list holding a two-dimensional array is
    not composed of one-dimensional arrays, and the call raises
    [ValueError], not [TypeError]. *)
Lemma ppc_2d_array_not_TypeError :
  let phases := PyList [PyArray (mk_ndarray [2; 1]%nat [0%R; 1%R])] in
  existsb (fun o => negb (is_array1d o)) (to_list phases) = true
  /\ pairwise_phase_consistency phases "ppc0" = Raise ValueError
  /\ pairwise_phase_consistency phases "ppc0" <> Raise TypeError.
Proof.
  repeat split; discriminate.
Qed.

(** C7. With method ['ppc1'] the call raises, whatever the phases
    are: it never returns, neither a number nor [None]. The error is
    the one of the validation loop or, when the phases are valid, the
    [ValueError] of the method check. *)
Theorem ppc1_raises
        {F : Type} {ops : NumOps F} (phases : arg (pyobj F)) :
  exists e,
    pairwise_phase_consistency phases "ppc1" = Raise e
    /\ forall arrays, check_arrays (to_list phases) = Ok arrays ->
                      e = ValueError.
Proof.
  unfold pairwise_phase_consistency.
  destruct (check_arrays (to_list phases)) as [arrays|e]; simpl.
  - exists ValueError. split; reflexivity.
  - exists e. split; [reflexivity|]. intros arrays H. discriminate.
Qed.

(** ** Sums over the pairwise matrix, in exact arithmetic *)

Section RealSums.
Local Open Scope R_scope.

Lemma fold_left_Rplus (l : list R) (a : R) :
  fold_left Rplus l a = a + Rsum l.
Proof.
  revert a. induction l as [|x l IH]; intro a; simpl.
  - lra.
  - rewrite IH. lra.
Qed.

Lemma np_sum_Rsum (l : list R) : np_sum l = Rsum l.
Proof. unfold np_sum. simpl. rewrite fold_left_Rplus. lra. Qed.

(** Entries that vanish may be left out of a sum. *)
Lemma Rsum_map_filter {A : Type} (p : A -> bool) (g h : A -> R)
      (l : list A) :
  (forall x, In x l -> p x = false -> g x = 0) ->
  (forall x, In x l -> p x = true -> g x = h x) ->
  Rsum (map g l) = Rsum (map h (filter p l)).
Proof.
  induction l as [|x l IH]; intros H0 H1; simpl; [reflexivity|].
  rewrite IH;
    [ | intros; apply H0; simpl; auto | intros; apply H1; simpl; auto ].
  destruct (p x) eqn:Hp; simpl.
  - rewrite (H1 x) by (simpl; auto). reflexivity.
  - rewrite (H0 x) by (simpl; auto). lra.
Qed.

Lemma Rsum_map_const {A : Type} (c : R) (g : A -> R) (l : list A) :
  (forall x, In x l -> g x = c) ->
  Rsum (map g l) = INR (length l) * c.
Proof.
  induction l as [|x l IH]; intro H.
  - simpl. lra.
  - cbn [map Rsum fold_right length]. fold (Rsum (map g l)).
    rewrite S_INR, IH, (H x); [lra | simpl; auto | ].
    intros; apply H; simpl; auto.
Qed.
End RealSums.

(** ** Counting the ordered pairs *)

Lemma in_indices (r c j k : nat) :
  In (j, k) (indices r c) <-> (j < r)%nat /\ (k < c)%nat.
Proof.
  unfold indices. rewrite in_prod_iff, !in_seq. lia.
Qed.

Lemma row_count (j m a : nat) :
  length (filter (fun k => negb (j =? k)%nat) (seq a m)) =
  (m - (if (a <=? j)%nat && (j <? a + m)%nat then 1 else 0))%nat.
Proof.
  revert a. induction m as [|m IH]; intro a; simpl.
  - destruct ((a <=? j)%nat && (j <? a + 0)%nat); reflexivity.
  - specialize (IH (S a)).
    destruct (Nat.eqb_spec j a) as [->|Hne]; simpl.
    + rewrite IH.
      destruct (Nat.leb_spec (S a) a); [lia|].
      destruct (Nat.leb_spec a a); [|lia].
      destruct (Nat.ltb_spec a (a + S m)); [|lia]. simpl. lia.
    + rewrite IH.
      destruct (Nat.leb_spec (S a) j), (Nat.leb_spec a j),
               (Nat.ltb_spec j (S a + m)), (Nat.ltb_spec j (a + S m));
        simpl; lia.
Qed.

Lemma offdiag_count (n : nat) (l : list nat) :
  (forall j, In j l -> (j < n)%nat) ->
  length (filter (fun jk => negb (fst jk =? snd jk)%nat)
                 (list_prod l (seq 0 n))) = (length l * (n - 1))%nat.
Proof.
  induction l as [|x l IH]; intro H; simpl; [reflexivity|].
  rewrite filter_app, length_app, IH by (intros; apply H; simpl; auto).
  f_equal.
  assert (Hx : (x < n)%nat) by (apply H; simpl; auto).
  transitivity (length (filter (fun k => negb (x =? k)%nat) (seq 0 n))).
  - generalize (seq 0 n) as s. induction s as [|y s IHs]; simpl; [reflexivity|].
    destruct (x =? y)%nat; simpl; rewrite IHs; reflexivity.
  - rewrite row_count. simpl.
    destruct (Nat.ltb_spec x n); [reflexivity|lia].
Qed.

Lemma length_ordered_pairs (n : nat) :
  length (ordered_pairs n) = (n * (n - 1))%nat.
Proof.
  unfold ordered_pairs, indices. rewrite offdiag_count.
  - rewrite length_seq. reflexivity.
  - intros j Hj. apply in_seq in Hj. lia.
Qed.

(** ** The value of [ppc0], in exact arithmetic *)

Section PPCReal.
Local Open Scope R_scope.

Lemma dot_prod_entry (theta : list R) (j k : nat) :
  (j < length theta)%nat -> (k < length theta)%nat ->
  get (dot_prod theta) j k =
  if (j =? k)%nat then 0
  else cos (nth k theta 0) * cos (nth j theta 0)
       + sin (nth k theta 0) * sin (nth j theta 0).
Proof.
  intros Hj Hk. cbn.
  destruct (j =? k)%nat; [reflexivity|].
  rewrite !(nth_indep (map cos theta) 0 (cos 0)),
          !(nth_indep (map sin theta) 0 (sin 0))
    by (rewrite length_map; assumption).
  rewrite !map_nth. reflexivity.
Qed.

Lemma sum_dot_prod (theta : list R) :
  np_sum (entries (dot_prod theta)) = pair_cos_sum theta.
Proof.
  rewrite np_sum_Rsum. unfold entries, pair_cos_sum, ordered_pairs.
  change (nrows (dot_prod theta)) with (length theta).
  change (ncols (dot_prod theta)) with (length theta).
  apply Rsum_map_filter; intros [j k] Hin Hp;
    apply in_indices in Hin; destruct Hin as [Hj Hk];
    cbn [fst snd] in *; rewrite dot_prod_entry by assumption.
  - apply negb_false_iff in Hp. rewrite Hp. reflexivity.
  - apply negb_true_iff in Hp. rewrite Hp, cos_minus. lra.
Qed.

Lemma ppc0_real (phases : arg (pyobj R)) (arrays : list (ndarray R)) :
  to_list phases = map (@PyArray R) arrays ->
  Forall (fun a => ndim a = 1%nat) arrays ->
  arrays <> [] ->
  let theta := concat (map (@flat R) arrays) in
  let N := INR (length theta) in
  pairwise_phase_consistency phases "ppc0" =
  Ok (Some (pair_cos_sum theta / (N * N - N))).
Proof.
  intros Hl H1 Hne theta N.
  rewrite (ppc0_unfold phases Hl H1 Hne). fold theta.
  rewrite sum_dot_prod. do 3 f_equal.
  cbn [f_of_Z R_ops]. rewrite minus_IZR, mult_IZR, <- INR_IZR_INZ.
  reflexivity.
Qed.

Lemma pooled_nonempty (arrays : list (ndarray R)) :
  (2 <= length (concat (map (@flat R) arrays)))%nat -> arrays <> [].
Proof. intros H ->. simpl in H. lia. Qed.
End PPCReal.

(** C3. For a pooled input of [N >= 2] phases, [ppc0] is
    [1 / (N (N - 1))] times the sum of [cos (theta_j - theta_k)] over
    all ordered pairs [j <> k] (exact arithmetic). *)
Theorem ppc0_is_pairwise_cosine_mean
        (phases : arg (pyobj R)) (arrays : list (ndarray R)) :
  to_list phases = map (@PyArray R) arrays ->
  Forall (fun a => ndim a = 1%nat) arrays ->
  (2 <= length (concat (map (@flat R) arrays)))%nat ->
  pairwise_phase_consistency phases "ppc0" =
  Ok (Some (ppc_spec (concat (map (@flat R) arrays)))).
Proof.
  intros Hl H1 HN.
  rewrite (ppc0_real phases Hl H1 (pooled_nonempty HN)).
  unfold ppc_spec. do 2 f_equal.
  set (theta := concat (map (@flat R) arrays)) in *.
  assert (HN' : (2 <= INR (length theta))%R).
  { change 2%R with (INR 2). apply le_INR. exact HN. }
  field. repeat split; nra.
Qed.

(** Two trials of one and two phases. *)
Lemma ppc0_is_pairwise_cosine_mean_witness :
  pairwise_phase_consistency
    (PyList [PyArray (array1d [0%R]); PyArray (array1d [1%R; 2%R])]) "ppc0" =
  Ok (Some (ppc_spec [0%R; 1%R; 2%R])).
Proof.
  apply (@ppc0_is_pairwise_cosine_mean
           (PyList [PyArray (array1d [0%R]); PyArray (array1d [1%R; 2%R])])
           [array1d [0%R]; array1d [1%R; 2%R]]).
  - reflexivity.
  - repeat constructor.
  - simpl. lia.
Defined.

(** C9. For a pooled input of [N >= 2] identical phases, [ppc0] is
    [1] (exact arithmetic). *)
Theorem ppc0_identical_phases
        (phases : arg (pyobj R)) (arrays : list (ndarray R))
        (x : R) (N : nat) :
  to_list phases = map (@PyArray R) arrays ->
  Forall (fun a => ndim a = 1%nat) arrays ->
  concat (map (@flat R) arrays) = repeat x N ->
  (2 <= N)%nat ->
  pairwise_phase_consistency phases "ppc0" = Ok (Some 1%R).
Proof.
  intros Hl H1 Hx HN.
  assert (Hne : arrays <> []).
  { apply pooled_nonempty. rewrite Hx, repeat_length. exact HN. }
  rewrite (ppc0_real phases Hl H1 Hne), Hx. do 2 f_equal.
  unfold pair_cos_sum. rewrite repeat_length.
  rewrite (Rsum_map_const (c := 1%R)).
  - rewrite length_ordered_pairs, mult_INR, minus_INR by lia.
    assert (HN' : (2 <= INR N)%R).
    { change 2%R with (INR 2). apply le_INR. exact HN. }
    simpl INR. field. nra.
  - intros [j k] Hin. unfold ordered_pairs in Hin.
    apply filter_In in Hin. destruct Hin as [Hin _].
    apply in_indices in Hin. destruct Hin as [Hj Hk]. cbn [fst snd].
    rewrite !(nth_indep (repeat x N) 0%R x) by (rewrite repeat_length; lia).
    rewrite !nth_repeat, Rminus_diag. apply cos_0.
Qed.

(** Three equal phases given as one array. *)
Lemma ppc0_identical_phases_witness :
  pairwise_phase_consistency (Bare (PyArray (array1d [PI; PI; PI]))) "ppc0" =
  Ok (Some 1%R).
Proof.
  apply (@ppc0_identical_phases
           (Bare (PyArray (array1d [PI; PI; PI])))
           [array1d [PI; PI; PI]] PI 3).
  - reflexivity.
  - repeat constructor.
  - reflexivity.
  - lia.
Defined.

(** ** Fewer than two phases, in IEEE-754 arithmetic *)

Section PPCFloat.
Variables sf_cos sf_sin : spec_float -> spec_float.
Variables sf_arctan2 sf_hypot : spec_float -> spec_float -> spec_float.

(** With no phase or one phase, every entry left in the zeroed
    matrix is [+0], and [N * N - N] is [0]. *)
Lemma ppc0_degenerate_quotient (phase_array : list spec_float) :
  (length phase_array < 2)%nat ->
  let n := Z.of_nat (length phase_array) in
  let ops := SF_ops sf_cos sf_sin sf_arctan2 sf_hypot in
  @f_div _ ops
         (np_sum (ops := ops) (entries (dot_prod (ops := ops) phase_array)))
         (@f_of_Z _ ops (n * n - n))
  = S754_nan.
Proof.
  intro H. destruct phase_array as [|x [|y l]]; [reflexivity|reflexivity|].
  simpl in H. lia.
Qed.
End PPCFloat.

(** C8 (as amended). For an input that holds at least one array, all
    of them one-dimensional, whose pooled phase count is below two,
    [ppc0] returns NaN: the quotient of [+0] by [0]. *)
Theorem ppc0_nan_below_two_phases
        (sf_cos sf_sin : spec_float -> spec_float)
        (sf_arctan2 sf_hypot : spec_float -> spec_float -> spec_float)
        (phases : arg (pyobj spec_float))
        (arrays : list (ndarray spec_float)) :
  to_list phases = map (@PyArray spec_float) arrays ->
  Forall (fun a => ndim a = 1%nat) arrays ->
  arrays <> [] ->
  (length (concat (map (@flat spec_float) arrays)) < 2)%nat ->
  pairwise_phase_consistency
    (ops := SF_ops sf_cos sf_sin sf_arctan2 sf_hypot) phases "ppc0"
  = Ok (Some S754_nan).
Proof.
  intros Hl H1 Hne HN.
  rewrite (ppc0_unfold (ops := SF_ops sf_cos sf_sin sf_arctan2 sf_hypot)
                       phases Hl H1 Hne).
  rewrite ppc0_degenerate_quotient by exact HN. reflexivity.
Qed.

(** An empty array next to an array of one phase, for any
    implementation of the transcendental functions. *)
Lemma ppc0_nan_below_two_phases_witness :
  let one := S754_finite false 1 0 in
  (length (concat (map (@flat spec_float) [array1d []; array1d [one]])) < 2)%nat
  /\ forall c s a h,
      pairwise_phase_consistency
        (ops := SF_ops c s a h)
        (PyList [PyArray (array1d []); PyArray (array1d [one])]) "ppc0"
      = Ok (Some S754_nan).
Proof.
  split; [simpl; lia|]. intros c s a h.
  apply (@ppc0_nan_below_two_phases c s a h
           (PyList [PyArray (array1d []);
                    PyArray (array1d [S754_finite false 1 0])])
           [array1d []; array1d [S754_finite false 1 0]]).
  - reflexivity.
  - repeat constructor.
  - discriminate.
  - simpl. lia.
Defined.

(** C8 (as stated) fails on the empty list: it is a list of
    one-dimensional arrays with no pooled phase at all, and pooling it
    raises [ValueError] instead of yielding NaN. *)
Lemma ppc0_empty_list_raises :
  check_arrays (@nil (pyobj spec_float)) = Ok []
  /\ (length (concat (map (@flat spec_float) [])) < 2)%nat
  /\ forall c s a h,
      pairwise_phase_consistency
        (ops := SF_ops c s a h) (PyList []) "ppc0" = Raise ValueError.
Proof.
  repeat split. simpl. lia.
Qed.

(** ** The two readings of the comparisons *)

Lemma in_window_iff (start stop t : Q) :
  in_window start stop t = true <-> (start <= t /\ t < stop)%Q.
Proof.
  unfold in_window. cbn [t_le t_lt Q_time].
  rewrite andb_true_iff, negb_true_iff, Qle_bool_iff.
  split; intros [H1 H2]; split; try assumption.
  - apply Qnot_le_lt. intro H. apply Qle_bool_iff in H. congruence.
  - destruct (Qle_bool stop t) eqn:E; [|reflexivity].
    apply Qle_bool_iff in E. exfalso. apply (Qlt_not_le _ _ H2 E).
Qed.

(** A rational time is not before itself and not strictly before
    itself. *)
Lemma Q_time_reflexive (x : Q) : t_le x x = true /\ t_lt x x = false.
Proof.
  cbn [t_le t_lt Q_time].
  assert (H : Qle_bool x x = true) by (apply Qle_bool_iff, Qle_refl).
  rewrite H. split; reflexivity.
Qed.

Lemma SFcompare_refl (x : spec_float) :
  x <> S754_nan -> SFcompare x x = Some Eq.
Proof.
  intro Hx. destruct x as [s|s| |s m e]; try reflexivity.
  - destruct s; reflexivity.
  - congruence.
  - simpl. rewrite Z.compare_refl, Pos.compare_cont_refl.
    destruct s; reflexivity.
Qed.

(** No double is strictly before itself, and a double that is a number
    is not after itself. *)
Lemma B64_time_reflexive (x : spec_float) :
  (x <> S754_nan -> t_le x x = true) /\ t_lt x x = false.
Proof.
  cbn [t_le t_lt B64_time]. unfold SFleb, SFltb. split.
  - intro Hx. rewrite SFcompare_refl by assumption. reflexivity.
  - destruct x as [s|s| |s m e]; try reflexivity.
    + destruct s; reflexivity.
    + rewrite SFcompare_refl by discriminate. reflexivity.
Qed.

(** ** Indexing *)

(** Indexing succeeds on the valid indices and raises [IndexError] on
    the others. *)
Lemma np_getitem_valid {A : Type} (l : list A) (i : Z) :
  valid_index (length l) i = true -> exists a, np_getitem l i = Ok a.
Proof.
  unfold valid_index, np_getitem. intro H.
  apply andb_true_iff in H. destruct H as [H1 H2].
  apply Z.leb_le in H1. apply Z.ltb_lt in H2.
  set (n := Z.of_nat (length l)) in *.
  set (i' := if (i <? 0)%Z then (i + n)%Z else i).
  assert (Hi : (0 <= i' < n)%Z)
    by (unfold i'; destruct (Z.ltb_spec i 0); lia).
  cbv zeta. fold i'.
  destruct (Z.leb_spec 0 i'); [|lia].
  destruct (Z.ltb_spec i' n); [|lia]. simpl. unfold py_getitem.
  destruct (nth_error l (Z.to_nat i')) as [a|] eqn:E.
  - exists a. reflexivity.
  - apply nth_error_None in E. lia.
Qed.

Lemma np_getitem_invalid {A : Type} (l : list A) (i : Z) :
  valid_index (length l) i = false -> np_getitem l i = Raise IndexError.
Proof.
  unfold valid_index, np_getitem. intro H.
  apply andb_false_iff in H.
  set (n := Z.of_nat (length l)) in *.
  set (i' := if (i <? 0)%Z then (i + n)%Z else i).
  assert (Hi : ~ (0 <= i' < n)%Z).
  { unfold i'. destruct H as [H|H];
      [apply Z.leb_gt in H|apply Z.ltb_ge in H];
      destruct (Z.ltb_spec i 0); lia. }
  cbv zeta. fold i'.
  destruct (Z.leb_spec 0 i'); [|reflexivity].
  destruct (Z.ltb_spec i' n); [lia|reflexivity].
Qed.

Lemma length_times {Tm F : Type} (ht : AnalogSignal Tm F) :
  length (times ht) = length (samples ht).
Proof. unfold times, samples. rewrite !length_map. reflexivity. Qed.

(** ** The selection of the events *)

Section Selection.
Context {Tm F : Type} {tops : TimeOps Tm}.

(** The code's selection by position picks the retained events. *)
Lemma sttimeind_retained (ht : AnalogSignal Tm F) (st : SpikeTrain Tm) :
  map (fun i => nth i (spikes st) t_zero)
      (sttimeind (spikes st) (t_start ht) (t_stop ht)) = retained ht st.
Proof.
  unfold sttimeind, retained.
  generalize (in_window (t_start ht) (t_stop ht)) as p.
  generalize (spikes st) as l. intros l p.
  assert (G : forall (pre : list Tm),
             map (fun i => nth i (pre ++ l) t_zero)
                 (filter (fun i => p (nth i (pre ++ l) t_zero))
                         (seq (length pre) (length l)))
             = filter p l).
  { induction l as [|x l IH]; intro pre; simpl; [reflexivity|].
    rewrite nth_middle.
    specialize (IH (pre ++ [x])).
    rewrite <- app_assoc, length_app, Nat.add_1_r in IH. simpl in IH.
    destruct (p x); simpl; rewrite ?nth_middle, IH; reflexivity. }
  apply (G []).
Qed.

(** An event is retained when it is an event of the train, not before
    the start and strictly before the stop. *)
Lemma in_retained (ht : AnalogSignal Tm F) (st : SpikeTrain Tm) (t : Tm) :
  In t (retained ht st)
  <-> In t (spikes st)
      /\ t_le (t_start ht) t = true /\ t_lt t (t_stop ht) = true.
Proof.
  unfold retained, in_window. rewrite filter_In, andb_true_iff.
  reflexivity.
Qed.
End Selection.

(** ** The loops of [spike_triggered_phase] *)

Section Loops.
Context {Tm F : Type} {ops : NumOps F}.
Context {tops : TimeOps Tm} {tval : TimeValue Tm F}.

(** The loop body returns when the index is valid and raises
    [IndexError] when it is not, with or without interpolation. *)
Lemma spike_sample_valid (interpolate : bool) (ht : AnalogSignal Tm F)
      (t : Tm) (k : Z) :
  valid_index (length (samples ht)) k = true ->
  exists pa, spike_sample interpolate ht t k = Ok pa.
Proof.
  intro V. unfold spike_sample.
  destruct (np_getitem_valid (samples ht) k V) as [s1 E1].
  destruct (interpolate && (k + 1 <? Z.of_nat (length (times ht)))%Z)
    eqn:Hc.
  - apply andb_true_iff in Hc. destruct Hc as [_ Hc].
    apply Z.ltb_lt in Hc. rewrite length_times in Hc.
    destruct (np_getitem_valid (times ht) k) as [tj Et];
      [rewrite length_times; assumption|].
    destruct (np_getitem_valid (samples ht) (k + 1)%Z) as [s2 E2].
    { unfold valid_index in *. apply andb_true_iff in V.
      destruct V as [V1 V2]. apply Z.leb_le in V1.
      apply andb_true_iff. split; [apply Z.leb_le|apply Z.ltb_lt]; lia. }
    unfold offset. rewrite Et. simpl. rewrite E1. simpl. rewrite E2. simpl.
    eexists. reflexivity.
  - rewrite E1. simpl. eexists. reflexivity.
Qed.

Lemma spike_sample_invalid (interpolate : bool) (ht : AnalogSignal Tm F)
      (t : Tm) (k : Z) :
  valid_index (length (samples ht)) k = false ->
  spike_sample interpolate ht t k = Raise IndexError.
Proof.
  intro V. unfold spike_sample.
  destruct (interpolate && (k + 1 <? Z.of_nat (length (times ht)))%Z).
  - unfold offset. rewrite np_getitem_invalid; [reflexivity|].
    rewrite length_times. assumption.
  - rewrite np_getitem_invalid by assumption. reflexivity.
Qed.

Lemma spike_sample_Ok_iff (interpolate : bool) (ht : AnalogSignal Tm F)
      (t : Tm) (k : Z) :
  (exists pa, spike_sample interpolate ht t k = Ok pa)
  <-> valid_index (length (samples ht)) k = true.
Proof.
  split.
  - intros [pa H]. destruct (valid_index (length (samples ht)) k) eqn:V;
      [reflexivity|].
    rewrite spike_sample_invalid in H by assumption. discriminate.
  - apply spike_sample_valid.
Qed.

Lemma spike_sample_raises (interpolate : bool) (ht : AnalogSignal Tm F)
      (t : Tm) (k : Z) (e : py_error) :
  spike_sample interpolate ht t k = Raise e -> e = IndexError.
Proof.
  intro H. destruct (valid_index (length (samples ht)) k) eqn:V.
  - destruct (spike_sample_valid interpolate ht t k V) as [pa Hpa].
    congruence.
  - rewrite spike_sample_invalid in H by assumption. congruence.
Qed.

(** What the inner loop returns. *)
Lemma spikes_loop_spec (interpolate : bool) (ht : AnalogSignal Tm F)
      (st : SpikeTrain Tm) (idx : list nat) :
  forall phases amps tms r,
    spikes_loop interpolate ht st (combine idx (ind_at_spike ht st idx))
                (phases, amps, tms) = Ok r ->
    exists ps,
      train_samples interpolate ht
                    (map (fun i => nth i (spikes st) t_zero) idx) ps
      /\ r = (phases ++ map fst ps, amps ++ map snd ps,
              tms ++ map (fun i => mk_scalar (nth i (spikes st) t_zero)
                                             (st_units st)) idx).
Proof.
  induction idx as [|i idx IH]; intros phases amps tms r H.
  - simpl in H. inversion H. exists []. split; [constructor|].
    simpl. rewrite !app_nil_r. reflexivity.
  - cbn [ind_at_spike map combine spikes_loop] in H.
    destruct (spike_sample interpolate ht (nth i (spikes st) t_zero)
                (sample_index ht (nth i (spikes st) t_zero)))
      as [pa|] eqn:Hpa; [|discriminate].
    cbn [bind] in H. fold (ind_at_spike ht st idx) in H.
    apply IH in H. destruct H as [ps [Hps Hr]].
    exists (pa :: ps). split; [constructor; assumption|].
    rewrite Hr. cbn [map]. rewrite <- !app_assoc. reflexivity.
Qed.

(** The inner loop returns when the loop body does for every event. *)
Lemma spikes_loop_complete (interpolate : bool) (ht : AnalogSignal Tm F)
      (st : SpikeTrain Tm) (idx : list nat) :
  forall ps phases amps tms,
    train_samples interpolate ht
                  (map (fun i => nth i (spikes st) t_zero) idx) ps ->
    spikes_loop interpolate ht st (combine idx (ind_at_spike ht st idx))
                (phases, amps, tms)
    = Ok (phases ++ map fst ps, amps ++ map snd ps,
          tms ++ map (fun i => mk_scalar (nth i (spikes st) t_zero)
                                         (st_units st)) idx).
Proof.
  induction idx as [|i idx IH]; intros ps phases amps tms H.
  - inversion H. simpl. rewrite !app_nil_r. reflexivity.
  - cbn [map] in H. inversion H as [|t pa ts ps' Hpa Hps]; subst.
    cbn [ind_at_spike map combine spikes_loop]. rewrite Hpa.
    cbn [bind]. fold (ind_at_spike ht st idx).
    rewrite (IH ps') by assumption.
    rewrite <- !app_assoc. reflexivity.
Qed.

(** The inner loop raises nothing but [IndexError]. *)
Lemma spikes_loop_raises (interpolate : bool) (ht : AnalogSignal Tm F)
      (st : SpikeTrain Tm) (todo : list (nat * Z)) :
  forall s e,
    spikes_loop interpolate ht st todo s = Raise e -> e = IndexError.
Proof.
  induction todo as [|[i k] todo IH]; intros [[phases amps] tms] e H.
  - discriminate.
  - cbn [spikes_loop] in H.
    destruct (spike_sample interpolate ht (nth i (spikes st) t_zero) k)
      as [pa|e'] eqn:Hpa.
    + cbn [bind] in H. apply IH in H. assumption.
    + cbn [bind] in H. inversion H; subst.
      apply spike_sample_raises in Hpa. assumption.
Qed.
End Loops.

Section OuterLoop.
Context {Tm F : Type} {ops : NumOps F}.
Context {tops : TimeOps Tm} {tval : TimeValue Tm F}.

Lemma trains_loop_spec (interpolate : bool)
      (hts : list (AnalogSignal Tm F)) (todo : list (nat * SpikeTrain Tm)) :
  forall rp ra rt r,
    trains_loop interpolate hts todo (rp, ra, rt) = Ok r ->
    exists es,
      Forall2 (train_entry interpolate hts) todo es
      /\ r = (rp ++ map (fun e => fst (fst e)) es,
              ra ++ map (fun e => snd (fst e)) es,
              rt ++ map snd es).
Proof.
  induction todo as [|[j st] todo IH]; intros rp ra rt r H.
  - simpl in H. inversion H. exists []. split; [constructor|].
    simpl. rewrite !app_nil_r. reflexivity.
  - cbn [trains_loop] in H. unfold py_getitem in H.
    rewrite !nth_error_map in H.
    destruct (nth_error hts (phase_index (length hts) j)) as [ht|] eqn:Eht;
      [|discriminate].
    cbn [option_map bind] in H.
    destruct (spikes_loop interpolate ht st
                (combine (sttimeind (spikes st) (t_start ht) (t_stop ht))
                   (ind_at_spike ht st
                      (sttimeind (spikes st) (t_start ht) (t_stop ht))))
                ([], [], [])) as [e|] eqn:Hloop; [|discriminate].
    apply spikes_loop_spec in Hloop. destruct Hloop as [ps [Hps He]].
    subst e. cbn [bind app] in H.
    apply IH in H. destruct H as [es [Hes Hr]].
    rewrite sttimeind_retained in Hps.
    exists ((map fst ps, map snd ps,
             map (fun t => mk_scalar t (st_units st)) (retained ht st))
              :: es).
    split.
    + constructor; [|assumption]. exists ht, ps. repeat split; assumption.
    + rewrite Hr. cbn [map fst snd].
      rewrite <- (sttimeind_retained ht st), map_map, <- !app_assoc.
      reflexivity.
Qed.

(** The outer loop returns when every train has its entry. *)
Lemma trains_loop_complete (interpolate : bool)
      (hts : list (AnalogSignal Tm F)) (todo : list (nat * SpikeTrain Tm)) :
  forall es rp ra rt,
    Forall2 (train_entry interpolate hts) todo es ->
    trains_loop interpolate hts todo (rp, ra, rt)
    = Ok (rp ++ map (fun e => fst (fst e)) es,
          ra ++ map (fun e => snd (fst e)) es,
          rt ++ map snd es).
Proof.
  induction todo as [|[j st] todo IH]; intros es rp ra rt H.
  - inversion H. simpl. rewrite !app_nil_r. reflexivity.
  - inversion H as [|jst e todo' es' [ht [ps [Hht [Hps He]]]] Hes]; subst.
    cbn [fst snd] in Hht, Hps.
    cbn [trains_loop]. unfold py_getitem. rewrite !nth_error_map, Hht.
    cbn [option_map bind].
    rewrite <- (sttimeind_retained ht st) in Hps.
    erewrite spikes_loop_complete by exact Hps.
    cbn [bind app]. rewrite (IH es') by assumption.
    cbn [map fst snd].
    rewrite <- (sttimeind_retained ht st), map_map, <- !app_assoc.
    reflexivity.
Qed.

(** The outer loop raises nothing but [IndexError]. *)
Lemma trains_loop_raises (interpolate : bool)
      (hts : list (AnalogSignal Tm F)) (todo : list (nat * SpikeTrain Tm)) :
  forall s e, trains_loop interpolate hts todo s = Raise e -> e = IndexError.
Proof.
  induction todo as [|[j st] todo IH]; intros [[rp ra] rt] e H.
  - discriminate.
  - cbn [trains_loop] in H. unfold py_getitem in H.
    rewrite !nth_error_map in H.
    destruct (nth_error hts (phase_index (length hts) j)) as [ht|];
      cbn [option_map bind] in H; [|congruence].
    destruct (spikes_loop interpolate ht st
                (combine (sttimeind (spikes st) (t_start ht) (t_stop ht))
                   (ind_at_spike ht st
                      (sttimeind (spikes st) (t_start ht) (t_stop ht))))
                ([], [], [])) as [[[phases amps] tms]|e'] eqn:Hloop;
      cbn [bind] in H.
    + apply IH in H. exact H.
    + inversion H; subst. apply spikes_loop_raises in Hloop. exact Hloop.
Qed.

Lemma convert_spec {A : Type} (l : list (list (scalar_quantity A))) :
  forall qs, convert l = Ok qs -> Forall2 (@converted A) l qs.
Proof.
  induction l as [|entry l IH]; intros qs H.
  - inversion H. constructor.
  - cbn [convert] in H. unfold to_quantity, py_getitem in H.
    destruct entry as [|e0 entry]; [discriminate|].
    cbn [nth_error bind] in H.
    destruct (convert l) as [qs'|] eqn:E; [|discriminate].
    inversion H. constructor; [|apply IH; reflexivity].
    split; [reflexivity|]. exists e0. split; reflexivity.
Qed.

Lemma spike_triggered_phase_spec
      (hilbert_transform : arg (AnalogSignal Tm F))
      (spiketrains : arg (SpikeTrain Tm)) (interpolate : bool) P A T :
  spike_triggered_phase hilbert_transform spiketrains interpolate
  = Ok (P, A, T) ->
  exists es,
    Forall2 (train_entry interpolate (to_list hilbert_transform))
            (enumerate (to_list spiketrains)) es
    /\ P = map (fun e => fst (fst e)) es
    /\ Forall2 (@converted F) (map (fun e => snd (fst e)) es) A
    /\ Forall2 (@converted Tm) (map snd es) T.
Proof.
  unfold spike_triggered_phase. intro H.
  destruct (negb (length (to_list spiketrains) =? 1)%nat
            && negb (length (to_list hilbert_transform) =? 1)%nat
            && negb (length (to_list spiketrains)
                     =? length (to_list hilbert_transform))%nat);
    [discriminate|].
  destruct (trains_loop interpolate (to_list hilbert_transform)
                        (enumerate (to_list spiketrains)) ([], [], []))
    as [r|] eqn:Hloop; [|discriminate].
  apply trains_loop_spec in Hloop. destruct Hloop as [es [Hes Hr]].
  subst r. cbn [bind app] in H.
  destruct (convert (map (fun e => snd (fst e)) es)) as [A'|] eqn:EA;
    [|discriminate].
  destruct (convert (map snd es)) as [T'|] eqn:ET; [|discriminate].
  cbn [bind] in H. inversion H; subst.
  exists es. repeat split; try assumption; apply convert_spec; assumption.
Qed.
End OuterLoop.

(** ** Positions in related lists *)

Lemma Forall2_nth_error {A B : Type} (R : A -> B -> Prop)
      (l : list A) (l' : list B) :
  Forall2 R l l' ->
  forall j x, nth_error l j = Some x ->
              exists y, nth_error l' j = Some y /\ R x y.
Proof.
  induction 1 as [|a b l l' Hab _ IH]; intros j x Hj.
  - destruct j; discriminate.
  - destruct j as [|j]; simpl in *.
    + inversion Hj; subst. exists b. split; [reflexivity|assumption].
    + apply IH. assumption.
Qed.

Lemma nth_error_enumerate {A : Type} (l : list A) (j : nat) (x : A) :
  nth_error l j = Some x -> nth_error (enumerate l) j = Some (j, x).
Proof.
  unfold enumerate.
  assert (G : forall a j, nth_error l j = Some x ->
              nth_error (combine (seq a (length l)) l) j = Some (a + j, x)%nat).
  { clear j. induction l as [|y l IH]; intros a j Hj.
    - destruct j; discriminate.
    - destruct j as [|j]; simpl in *.
      + inversion Hj. rewrite Nat.add_0_r. reflexivity.
      + rewrite (IH (S a) j Hj). f_equal. f_equal. lia. }
  exact (G 0%nat j).
Qed.

Lemma length_enumerate {A : Type} (l : list A) :
  length (enumerate l) = length l.
Proof.
  unfold enumerate. rewrite length_combine, length_seq. apply Nat.min_id.
Qed.

(** A successful call returns one entry per spike train in each of
    its three lists. *)
Lemma result_lengths {Tm F : Type} {ops : NumOps F}
        {tops : TimeOps Tm} {tval : TimeValue Tm F}
      (hilbert_transform : arg (AnalogSignal Tm F))
      (spiketrains : arg (SpikeTrain Tm)) (interpolate : bool) P A T :
  spike_triggered_phase hilbert_transform spiketrains interpolate
  = Ok (P, A, T) ->
  length P = length (to_list spiketrains)
  /\ length A = length (to_list spiketrains)
  /\ length T = length (to_list spiketrains).
Proof.
  intro H. apply spike_triggered_phase_spec in H.
  destruct H as [es [Hes [HP [HA HT]]]].
  apply Forall2_length in Hes, HA, HT.
  rewrite length_enumerate in Hes. rewrite length_map in HA, HT.
  subst P. rewrite length_map. lia.
Qed.

(** C10. After a successful call, the three sequences returned for a
    spike train have the length of its retained events (those inside
    the window of the signal the train is compared with), and at every
    position the phase, the amplitude and the time are the ones the
    loop body yields for the retained event at that position. *)
Theorem results_index_aligned {Tm F : Type} {ops : NumOps F}
        {tops : TimeOps Tm} {tval : TimeValue Tm F}
        (hilbert_transform : arg (AnalogSignal Tm F))
        (spiketrains : arg (SpikeTrain Tm)) (interpolate : bool) P A T :
  spike_triggered_phase hilbert_transform spiketrains interpolate
  = Ok (P, A, T) ->
  forall j st,
    nth_error (to_list spiketrains) j = Some st ->
    exists ht phases amps tms,
      nth_error (to_list hilbert_transform)
                (phase_index (length (to_list hilbert_transform)) j) = Some ht
      /\ nth_error P j = Some phases
      /\ nth_error A j = Some amps
      /\ nth_error T j = Some tms
      /\ length phases = length (retained ht st)
      /\ length (magnitude amps) = length (retained ht st)
      /\ length (magnitude tms) = length (retained ht st)
      /\ forall i t,
          nth_error (retained ht st) i = Some t ->
          exists p a,
            spike_sample interpolate ht t (sample_index ht t) = Ok (p, a)
            /\ nth_error phases i = Some p
            /\ nth_error (magnitude amps) i = Some (value a)
            /\ nth_error (magnitude tms) i = Some t.
Proof.
  intros H j st Hj. apply spike_triggered_phase_spec in H.
  destruct H as [es [Hes [HP [HA HT]]]].
  apply nth_error_enumerate in Hj.
  destruct (Forall2_nth_error Hes _ Hj) as [e [He [ht [ps [Hht [Hps Heq]]]]]].
  cbn [fst snd] in Hht, Hps, Heq.
  assert (Ea : nth_error (map (fun e => snd (fst e)) es) j
               = Some (snd (fst e)))
    by (rewrite nth_error_map, He; reflexivity).
  assert (Et : nth_error (map snd es) j = Some (snd e))
    by (rewrite nth_error_map, He; reflexivity).
  destruct (Forall2_nth_error HA _ Ea) as [amps [Hamps [Hma _]]].
  destruct (Forall2_nth_error HT _ Et) as [tms [Htms [Hmt _]]].
  subst e. cbn [fst snd] in *.
  exists ht, (map fst ps), amps, tms.
  pose proof (Forall2_length Hps) as Hlen.
  repeat split; try assumption.
  - subst P. rewrite nth_error_map, He. reflexivity.
  - rewrite length_map. symmetry. assumption.
  - rewrite Hma, !length_map. symmetry. assumption.
  - rewrite Hmt, !length_map. reflexivity.
  - intros i t Hi.
    destruct (Forall2_nth_error Hps _ Hi) as [[p a] [Hpa Hs]].
    exists p, a. repeat split.
    + assumption.
    + rewrite nth_error_map, Hpa. reflexivity.
    + rewrite Hma, map_map, nth_error_map, Hpa. reflexivity.
    + rewrite Hmt, map_map. cbn [value]. rewrite map_id. assumption.
Qed.

(** One signal and one train with three retained events out of
    five. *)
Lemma results_index_aligned_witness :
  exists P A T,
    spike_triggered_phase (Bare demo_signal) (Bare demo_train) true
    = Ok (P, A, T)
    /\ exists ht phases amps tms,
      nth_error [demo_signal] 0 = Some ht
      /\ nth_error P 0 = Some phases
      /\ nth_error A 0 = Some amps
      /\ nth_error T 0 = Some tms
      /\ length phases = length (retained ht demo_train)
      /\ length (magnitude amps) = length (retained ht demo_train)
      /\ length (magnitude tms) = length (retained ht demo_train)
      /\ forall i t,
          nth_error (retained ht demo_train) i = Some t ->
          exists p a,
            spike_sample true ht t (sample_index ht t) = Ok (p, a)
            /\ nth_error phases i = Some p
            /\ nth_error (magnitude amps) i = Some (value a)
            /\ nth_error (magnitude tms) i = Some t.
Proof.
  do 3 eexists. split.
  - reflexivity.
  - refine (@results_index_aligned Q R _ _ _ (Bare demo_signal)
              (Bare demo_train) true _ _ _ _ 0%nat demo_train _);
      reflexivity.
Defined.

(** ** When the call returns *)

Lemma in_enumerate {A : Type} (l : list A) (j : nat) (x : A) :
  In (j, x) (enumerate l) -> nth_error l j = Some x.
Proof.
  unfold enumerate.
  assert (G : forall a, In (j, x) (combine (seq a (length l)) l) ->
                        (a <= j)%nat /\ nth_error l (j - a) = Some x).
  { induction l as [|y l IH]; intros a Hin; [destruct Hin|].
    simpl in Hin. destruct Hin as [Heq|Hin].
    - inversion Heq; subst. rewrite Nat.sub_diag. split; [lia|reflexivity].
    - apply IH in Hin. destruct Hin as [Hle Hn]. split; [lia|].
      replace (j - a)%nat with (S (j - S a)) by lia. exact Hn. }
  intro Hin. apply G in Hin. rewrite Nat.sub_0_r in Hin. apply Hin.
Qed.

Section Totality.
Context {Tm F : Type} {ops : NumOps F}.
Context {tops : TimeOps Tm} {tval : TimeValue Tm F}.

(** The loop body returns for every event exactly when every event
    indexes a sample. *)
Lemma train_samples_exist (interpolate : bool) (ht : AnalogSignal Tm F)
      (events : list Tm) :
  Forall (fun t => valid_index (length (samples ht)) (sample_index ht t)
                   = true) events ->
  exists ps, train_samples interpolate ht events ps.
Proof.
  induction 1 as [|t events Ht _ [ps IH]].
  - exists []. constructor.
  - destruct (spike_sample_valid interpolate ht t _ Ht) as [pa Hpa].
    exists (pa :: ps). constructor; assumption.
Qed.

Lemma train_samples_valid (interpolate : bool) (ht : AnalogSignal Tm F)
      (events : list Tm) (ps : list (F * scalar_quantity F)) :
  train_samples interpolate ht events ps ->
  Forall (fun t => valid_index (length (samples ht)) (sample_index ht t)
                   = true) events.
Proof.
  induction 1 as [|t pa events ps Hpa _ IH]; constructor; [|exact IH].
  apply (spike_sample_Ok_iff interpolate ht t). exists pa. exact Hpa.
Qed.

Lemma train_entries_exist (interpolate : bool)
      (hts : list (AnalogSignal Tm F)) (todo : list (nat * SpikeTrain Tm)) :
  (forall j st, In (j, st) todo ->
     exists ht, nth_error hts (phase_index (length hts) j) = Some ht
                /\ indexes_samples ht st) ->
  exists es, Forall2 (train_entry interpolate hts) todo es.
Proof.
  induction todo as [|[j st] todo IH]; intro H.
  - exists []. constructor.
  - destruct IH as [es Hes];
      [intros j' st' Hin; apply H; right; exact Hin|].
    destruct (H j st (or_introl eq_refl)) as [ht [Hht Hv]].
    destruct (train_samples_exist interpolate ht Hv) as [ps Hps].
    eexists (_ :: es). constructor; [|exact Hes].
    exists ht, ps. split; [exact Hht|]. split; [exact Hps|reflexivity].
Qed.

Lemma convert_total {A : Type} (l : list (list (scalar_quantity A))) :
  Forall (fun entry => entry <> []) l -> exists qs, convert l = Ok qs.
Proof.
  induction 1 as [|entry l Hne _ [qs IH]].
  - exists []. reflexivity.
  - destruct entry as [|e0 entry]; [congruence|].
    cbn [convert]. unfold to_quantity, py_getitem. cbn [nth_error bind].
    rewrite IH. cbn [bind]. eexists. reflexivity.
Qed.

Lemma entries_nonempty (interpolate : bool) (hts : list (AnalogSignal Tm F))
      (todo : list (nat * SpikeTrain Tm)) es :
  Forall2 (train_entry interpolate hts) todo es ->
  (forall j st ht, In (j, st) todo ->
                   nth_error hts (phase_index (length hts) j) = Some ht ->
                   retained ht st <> []) ->
  Forall (fun entry => entry <> []) (map (fun e => snd (fst e)) es)
  /\ Forall (fun entry => entry <> []) (map snd es).
Proof.
  induction 1 as [|[j st] e todo es [ht [ps [Hht [Hps Heq]]]] _ IH];
    intro Hne; [split; constructor|].
  cbn [fst snd] in Hht, Hps, Heq.
  destruct IH as [IH1 IH2];
    [intros j' st' ht' Hin; apply Hne; right; exact Hin|].
  assert (Hr : retained ht st <> [])
    by (apply (Hne j st ht); [left; reflexivity|exact Hht]).
  subst e. cbn [map fst snd]. split; constructor; try assumption.
  - apply Forall2_length in Hps. intro Hnil.
    apply (f_equal (@length _)) in Hnil. rewrite length_map in Hnil.
    destruct (retained ht st); [congruence|simpl in *; lia].
  - destruct (retained ht st); [congruence|discriminate].
Qed.

(** The call returns when the counts are admitted and every spike
    train has a signal to be compared with, at least one event inside
    the window of that signal, and no event inside it whose index
    falls outside the signal. *)
Lemma spike_triggered_phase_returns
      (hilbert_transform : arg (AnalogSignal Tm F))
      (spiketrains : arg (SpikeTrain Tm)) (interpolate : bool) :
  let hts := to_list hilbert_transform in
  let sts := to_list spiketrains in
  (length sts = 1 \/ length hts = 1 \/ length sts = length hts)%nat ->
  (forall j st,
      nth_error sts j = Some st ->
      exists ht, nth_error hts (phase_index (length hts) j) = Some ht
                 /\ retained ht st <> []
                 /\ indexes_samples ht st) ->
  exists P A T,
    spike_triggered_phase hilbert_transform spiketrains interpolate
    = Ok (P, A, T).
Proof.
  intros hts sts Hcard Hev. unfold spike_triggered_phase.
  fold hts sts.
  replace (negb (length sts =? 1)%nat && negb (length hts =? 1)%nat
           && negb (length sts =? length hts)%nat) with false.
  2:{ destruct (Nat.eqb_spec (length sts) 1),
               (Nat.eqb_spec (length hts) 1),
               (Nat.eqb_spec (length sts) (length hts));
        try reflexivity. exfalso. lia. }
  destruct (@train_entries_exist interpolate hts (enumerate sts))
    as [es Hes].
  { intros j st Hin. apply in_enumerate in Hin.
    destruct (Hev j st Hin) as [ht [Hht [_ Hv]]]. exists ht.
    split; assumption. }
  rewrite (trains_loop_complete [] [] [] Hes). cbn [bind app].
  destruct (@entries_nonempty interpolate hts (enumerate sts) es Hes)
    as [HA HT].
  { intros j st ht Hin Hht. apply in_enumerate in Hin.
    destruct (Hev j st Hin) as [ht' [Hht' [Hne _]]].
    rewrite Hht in Hht'. inversion Hht'. subst ht'. exact Hne. }
  destruct (convert_total HA) as [A EA].
  destruct (convert_total HT) as [T ET].
  rewrite EA. cbn [bind]. rewrite ET. cbn [bind].
  eexists _, _, _. reflexivity.
Qed.
End Totality.

(** ** The angle of a point on the unit circle *)

Section Angle.
Local Open Scope R_scope.

Lemma cos_pos_range (p : R) :
  - PI < p <= PI -> 0 < cos p -> - (PI / 2) < p < PI / 2.
Proof.
  intros [Hl Hu] Hc. pose proof PI_RGT_0 as Hpi. split.
  - destruct (Rlt_le_dec (- (PI / 2)) p) as [H|H]; [assumption|].
    exfalso. rewrite <- cos_neg in Hc.
    assert (cos (- p) <= 0) by (apply cos_le_0; lra). lra.
  - destruct (Rlt_le_dec p (PI / 2)) as [H|H]; [assumption|].
    exfalso. assert (cos p <= 0) by (apply cos_le_0; lra). lra.
Qed.

Lemma cos_neg_range (p : R) :
  - PI < p <= PI -> cos p < 0 -> PI / 2 < p \/ p < - (PI / 2).
Proof.
  intros [Hl Hu] Hc.
  destruct (Rlt_le_dec (PI / 2) p) as [H|H]; [left; assumption|].
  destruct (Rlt_le_dec p (- (PI / 2))) as [H'|H']; [right; assumption|].
  exfalso. assert (0 <= cos p) by (apply cos_ge_0; lra). lra.
Qed.

Lemma cos_zero_range (p : R) :
  - PI < p <= PI -> cos p = 0 -> p = PI / 2 \/ p = - (PI / 2).
Proof.
  intros [Hl Hu] Hc. pose proof PI_RGT_0 as Hpi.
  destruct (Rtotal_order p (PI / 2)) as [H|[H|H]]; [|left; assumption|].
  - destruct (Rtotal_order p (- (PI / 2))) as [H'|[H'|H']];
      [|right; assumption|].
    + exfalso. rewrite <- cos_neg in Hc.
      assert (cos (- p) < 0) by (apply cos_lt_0; lra). lra.
    + exfalso. assert (0 < cos p) by (apply cos_gt_0; lra). lra.
  - exfalso. assert (cos p < 0) by (apply cos_lt_0; lra). lra.
Qed.

Lemma tan_shift (p q : R) :
  sin q = - sin p -> cos q = - cos p -> cos p <> 0 ->
  sin p / cos p = tan q.
Proof.
  intros Hs Hc Hne. unfold tan. rewrite Hs, Hc. field. assumption.
Qed.

(** [arctan2] undoes the point of the unit circle at an angle of
    the principal range. *)
Lemma R_arctan2_sin_cos (p : R) :
  - PI < p <= PI -> R_arctan2 (sin p) (cos p) = p.
Proof.
  intro Hp. pose proof PI_RGT_0 as Hpi. unfold R_arctan2.
  destruct (total_order_T 0 (cos p)) as [[Hc|Hc]|Hc].
  - apply atan_tan. apply cos_pos_range; assumption.
  - destruct (cos_zero_range Hp (eq_sym Hc)) as [->| ->].
    + rewrite sin_PI2. destruct (Rlt_dec 0 1); [reflexivity|lra].
    + rewrite sin_neg, sin_PI2.
      destruct (Rlt_dec 0 _); [lra|].
      destruct (Rlt_dec _ 0); [reflexivity|lra].
  - destruct (cos_neg_range Hp Hc) as [H|H].
    + assert (0 <= sin p) by (apply sin_ge_0; lra).
      destruct (Rle_dec 0 (sin p)); [|lra].
      rewrite (@tan_shift p (p - PI)).
      * rewrite atan_tan; lra.
      * replace p with ((p - PI) + PI) at 2 by ring. rewrite neg_sin. ring.
      * replace p with ((p - PI) + PI) at 2 by ring. rewrite neg_cos. ring.
      * lra.
    + assert (sin p < 0) by (apply sin_lt_0_var; lra).
      destruct (Rle_dec 0 (sin p)); [lra|].
      rewrite (@tan_shift p (p + PI)).
      * rewrite atan_tan; lra.
      * apply neg_sin.
      * apply neg_cos.
      * lra.
Qed.

Lemma atan_nonpos (x : R) : x <= 0 -> atan x <= 0.
Proof.
  intros [H|H].
  - rewrite <- atan_0. left. apply atan_increasing. assumption.
  - rewrite H, atan_0. lra.
Qed.

(** The angles [arctan2] returns are in the principal range. *)
Lemma R_arctan2_range (y x : R) : - PI < R_arctan2 y x <= PI.
Proof.
  pose proof PI_RGT_0 as Hpi. unfold R_arctan2.
  destruct (total_order_T 0 x) as [[Hx|Hx]|Hx].
  - pose proof (atan_bound (y / x)). lra.
  - destruct (Rlt_dec 0 y); [lra|]. destruct (Rlt_dec y 0); lra.
  - pose proof (atan_bound (y / x)) as Hb.
    assert (Hix : / x < 0) by (apply Rinv_lt_0_compat; assumption).
    destruct (Rle_dec 0 y) as [Hy|Hy].
    + assert (atan (y / x) <= 0).
      { apply atan_nonpos. unfold Rdiv. nra. }
      lra.
    + assert (0 < atan (y / x)).
      { rewrite <- atan_0. apply atan_increasing. unfold Rdiv. nra. }
      lra.
Qed.

Lemma angle_exp_i_angle (c : complex R) :
  angle (exp_i (angle c)) = angle c.
Proof.
  unfold angle at 1. unfold exp_i. cbn [re im f_arctan2 f_cos f_sin R_ops].
  apply R_arctan2_sin_cos. apply R_arctan2_range.
Qed.
End Angle.
(** ** Interpolation on a sample *)

Section OnSample.
Context {Tm : Type} {tops : TimeOps Tm} {tval : TimeValue Tm R}.
Local Open Scope R_scope.

Lemma interpolation_at_zero (z : Tm) (p1 p2 : R) :
  t_to_F z = 0 ->
  c_add (c_scale (f_sub f_one (t_to_F z)) (exp_i p1))
        (c_scale (t_to_F z) (exp_i p2)) = exp_i p1.
Proof.
  intro Hz. rewrite Hz.
  unfold c_add, c_scale, c_mul, exp_i.
  cbn [re im f_add f_sub f_mul f_zero f_one f_cos f_sin R_ops].
  f_equal; ring.
Qed.

(** The loop body with and without interpolation, for an event whose
    offset from its sample is zero, the sample not being the last
    one. *)
Lemma spike_sample_on_sample (ht : AnalogSignal Tm R) (t z : Tm) (k : Z) :
  offset ht t k = Ok z ->
  t_to_F z = 0 ->
  (k + 1 < Z.of_nat (length (times ht)))%Z ->
  exists p a1 a0,
    spike_sample true ht t k = Ok (p, a1)
    /\ spike_sample false ht t k = Ok (p, a0).
Proof.
  intros Hoff Hz Hk.
  assert (V : valid_index (length (samples ht)) k = true).
  { destruct (valid_index (length (samples ht)) k) eqn:V; [reflexivity|].
    unfold offset in Hoff. rewrite np_getitem_invalid in Hoff;
      [discriminate|rewrite length_times; assumption]. }
  destruct (np_getitem_valid (samples ht) k V) as [s1 E1].
  destruct (np_getitem_valid (samples ht) (k + 1)%Z) as [s2 E2].
  { unfold valid_index in *. apply andb_true_iff in V.
    destruct V as [V1 V2]. apply Z.leb_le in V1.
    rewrite length_times in Hk.
    apply andb_true_iff. split; [apply Z.leb_le|apply Z.ltb_lt]; lia. }
  unfold spike_sample. apply Z.ltb_lt in Hk. rewrite Hk.
  cbn [andb]. rewrite Hoff, E1. cbn [bind]. rewrite E2. cbn [bind].
  rewrite (interpolation_at_zero z (angle s1) (angle s2) Hz).
  rewrite angle_exp_i_angle.
  eexists _, _, _. split; reflexivity.
Qed.
End OnSample.

(** The phases returned for spike train number [j]. *)
Lemma phases_entry {Tm F : Type} {ops : NumOps F}
      {tops : TimeOps Tm} {tval : TimeValue Tm F}
      (hilbert_transform : arg (AnalogSignal Tm F))
      (spiketrains : arg (SpikeTrain Tm)) (interpolate : bool) P A T :
  spike_triggered_phase hilbert_transform spiketrains interpolate
  = Ok (P, A, T) ->
  forall j st ht,
    nth_error (to_list spiketrains) j = Some st ->
    nth_error (to_list hilbert_transform)
              (phase_index (length (to_list hilbert_transform)) j) = Some ht ->
    exists ps,
      train_samples interpolate ht (retained ht st) ps
      /\ nth_error P j = Some (map fst ps).
Proof.
  intros H j st ht Hj Hht. apply spike_triggered_phase_spec in H.
  destruct H as [es [Hes [HP _]]].
  apply nth_error_enumerate in Hj.
  destruct (Forall2_nth_error Hes _ Hj) as [e [He [ht' [ps [Hht' [Hps Heq]]]]]].
  cbn [fst snd] in Hht', Hps, Heq.
  rewrite Hht in Hht'. inversion Hht'; subst ht'.
  exists ps. split; [assumption|].
  subst P e. rewrite nth_error_map, He. reflexivity.
Qed.

(** ** An event on a sample of a signal with binary64 times *)

Section OnGrid.
Local Open Scope R_scope.

Lemma R_arctan2_minus_one : R_arctan2 0 (-1) = PI.
Proof.
  unfold R_arctan2.
  destruct (total_order_T 0 (-1)) as [[H|H]|H]; try lra.
  destruct (Rle_dec 0 0) as [_|H0]; [|lra].
  replace (0 / -1) with 0 by field. rewrite atan_0. ring.
Qed.

Lemma R_arctan2_minus_i : R_arctan2 (-1) 0 = - (PI / 2).
Proof.
  unfold R_arctan2.
  destruct (total_order_T 0 0) as [[H|H]|H]; try lra.
  destruct (Rlt_dec 0 (-1)) as [H0|_]; [lra|].
  destruct (Rlt_dec (-1) 0) as [_|H0]; [reflexivity|lra].
Qed.

(** The angle of a point with both coordinates negative. *)
Lemma R_arctan2_third_quadrant (y x : R) :
  x < 0 -> y < 0 -> - PI < R_arctan2 y x < - (PI / 2).
Proof.
  intros Hx Hy. unfold R_arctan2.
  destruct (total_order_T 0 x) as [[H|H]|H]; try lra.
  destruct (Rle_dec 0 y) as [H0|_]; [lra|].
  assert (Hq : 0 < y / x).
  { replace (y / x) with ((- y) * / (- x)) by (field; lra).
    apply Rmult_lt_0_compat; [lra|apply Rinv_0_lt_compat; lra]. }
  pose proof (atan_bound (y / x)) as Hb.
  pose proof (atan_increasing 0 (y / x) Hq) as Hi. rewrite atan_0 in Hi.
  lra.
Qed.

(** The point between [exp (i PI)] and [exp (- i PI / 2)] at the
    offset [z]. *)
Lemma interpolation_third_quadrant (z : R) :
  c_add (c_scale (f_sub f_one z) (exp_i PI))
        (c_scale z (exp_i (- (PI / 2))))
  = mk_complex (- (1 - z)) (- z).
Proof.
  unfold c_add, c_scale, c_mul, exp_i.
  cbn [re im f_add f_sub f_mul f_zero f_one f_cos f_sin R_ops].
  rewrite cos_PI, sin_PI, cos_neg, sin_neg, cos_PI2, sin_PI2.
  f_equal; ring.
Qed.

(** The angle of that point lies between [- PI] and [- PI / 2]. *)
Lemma interpolated_angle_third_quadrant (z : R) :
  0 < z < 1 ->
  - PI < angle (c_add (c_scale (f_sub f_one z)
                               (exp_i (angle (mk_complex (-1) 0))))
                      (c_scale z (exp_i (angle (mk_complex 0 (-1))))))
       < - (PI / 2).
Proof.
  intro Hz.
  replace (angle (mk_complex (-1) 0)) with PI
    by (symmetry; apply R_arctan2_minus_one).
  replace (angle (mk_complex 0 (-1))) with (- (PI / 2))
    by (symmetry; apply R_arctan2_minus_i).
  rewrite interpolation_third_quadrant.
  apply R_arctan2_third_quadrant; cbn [re im]; lra.
Qed.
End OnGrid.

(** C4: what the code does. Times are binary64 values, the arithmetic
    on the samples is exact. A signal is sampled every [0.1] s from
    [0.0] s on; an event at [0.3] s sits on the fourth sample, whose
    time [3 / 10.0] is that same double. The index the code computes
    for the event is [2], not [3], because [(0.3 - 0.0) / 0.1] is
    [2.9999999999999996] and the cast drops the fraction; the offset
    [z] from the third sample is [0.9999999999999998], not [0]. Without
    interpolation the call returns the phase [PI] of the third sample;
    with interpolation it returns a phase below [- PI / 2], next to the
    phase of the fourth sample. The two phases differ. *)
Theorem event_on_sample_phases_differ :
  nth_error (times grid_signal) 3 = Some (b64 3 10)
  /\ retained grid_signal grid_train = [b64 3 10]
  /\ sample_index grid_signal (b64 3 10) = 2%Z
  /\ offset grid_signal (b64 3 10) (sample_index grid_signal (b64 3 10))
     = Ok (S754_finite false 9007199254740990 (-53))
  /\ (0 < SF2R (S754_finite false 9007199254740990 (-53)) < 1)%R
  /\ exists p1 A1 T1 p0 A0 T0,
      spike_triggered_phase (Bare grid_signal) (Bare grid_train) true
      = Ok ([[p1]], A1, T1)
      /\ spike_triggered_phase (Bare grid_signal) (Bare grid_train) false
         = Ok ([[p0]], A0, T0)
      /\ p0 = PI
      /\ (- PI < p1 < - (PI / 2))%R
      /\ p1 <> p0.
Proof.
  assert (Hz : (0 < SF2R (S754_finite false 9007199254740990 (-53)) < 1)%R).
  { cbn [SF2R].
    change (Zpos (2 ^ 53)) with 9007199254740992%Z. lra. }
  split; [reflexivity|]. split; [reflexivity|]. split; [reflexivity|].
  split; [reflexivity|]. split; [exact Hz|].
  pose proof (interpolated_angle_third_quadrant Hz) as Hp1.
  eexists _, _, _, _, _, _.
  split; [reflexivity|]. split; [reflexivity|].
  pose proof R_arctan2_minus_one as Hp0.
  split; [exact Hp0|]. split; [exact Hp1|].
  assert (G : forall p1 p0 : R,
             p0 = PI -> (- PI < p1 < - (PI / 2))%R -> p1 <> p0).
  { intros p1 p0 E0 E1. pose proof PI_RGT_0 as Hpi. lra. }
  exact (G _ _ Hp0 Hp1).
Qed.

(** ** The retention window *)

(** C5. After a successful call, the times returned for a spike train
    are the events [t] of the train with [t_start <= t] and
    [t < t_stop], for the signal the train is compared with, and the
    phases and the amplitudes returned for the train are as many. An
    event at [t_stop] is not among them; an event of the train at
    [t_start] is (for a start that is a number and lies before the
    stop). *)
Theorem window_left_closed_right_open {Tm F : Type} {ops : NumOps F}
        {tops : TimeOps Tm} {tval : TimeValue Tm F}
        (hilbert_transform : arg (AnalogSignal Tm F))
        (spiketrains : arg (SpikeTrain Tm)) (interpolate : bool) P A T :
  spike_triggered_phase hilbert_transform spiketrains interpolate
  = Ok (P, A, T) ->
  forall j st ht,
    nth_error (to_list spiketrains) j = Some st ->
    nth_error (to_list hilbert_transform)
              (phase_index (length (to_list hilbert_transform)) j) = Some ht ->
    exists phases amps tms,
      nth_error P j = Some phases
      /\ nth_error A j = Some amps
      /\ nth_error T j = Some tms
      /\ magnitude tms
         = filter (fun t => t_le (t_start ht) t && t_lt t (t_stop ht))
                  (spikes st)
      /\ length phases = length (magnitude tms)
      /\ length (magnitude amps) = length (magnitude tms)
      /\ (t_lt (t_stop ht) (t_stop ht) = false ->
          ~ In (t_stop ht) (magnitude tms))
      /\ (t_le (t_start ht) (t_start ht) = true ->
          t_lt (t_start ht) (t_stop ht) = true ->
          In (t_start ht) (spikes st) ->
          In (t_start ht) (magnitude tms)).
Proof.
  intros H j st ht Hj Hht. apply spike_triggered_phase_spec in H.
  destruct H as [es [Hes [HP [HA HT]]]].
  apply nth_error_enumerate in Hj.
  destruct (Forall2_nth_error Hes _ Hj) as [e [He [ht' [ps [Hht' [Hps Heq]]]]]].
  cbn [fst snd] in Hht', Hps, Heq.
  rewrite Hht in Hht'. inversion Hht'; subst ht'.
  assert (Ea : nth_error (map (fun e => snd (fst e)) es) j
               = Some (snd (fst e)))
    by (rewrite nth_error_map, He; reflexivity).
  assert (Et : nth_error (map snd es) j = Some (snd e))
    by (rewrite nth_error_map, He; reflexivity).
  destruct (Forall2_nth_error HA _ Ea) as [amps [Hamps [Hma _]]].
  destruct (Forall2_nth_error HT _ Et) as [tms [Htms [Hmt _]]].
  subst e. cbn [fst snd] in *.
  rewrite map_map in Hmt. cbn [value] in Hmt. rewrite map_id in Hmt.
  pose proof (Forall2_length Hps) as Hlen.
  exists (map fst ps), amps, tms.
  split; [subst P; rewrite nth_error_map, He; reflexivity|].
  split; [exact Hamps|]. split; [exact Htms|].
  split; [exact Hmt|].
  split; [rewrite Hmt, length_map; symmetry; exact Hlen|].
  split; [rewrite Hma, Hmt, !length_map; symmetry; exact Hlen|].
  rewrite Hmt. split.
  - intros Hirr Hin. apply in_retained in Hin.
    destruct Hin as [_ [_ Hlt]]. congruence.
  - intros Hle Hlt Hin. apply in_retained. repeat split; assumption.
Qed.

(** Binary64 times: a train with an event at the start of the sampled
    signal, one inside and one at its stop. The first two are
    returned, the third is not. *)
Lemma window_left_closed_right_open_witness :
  exists P A T,
    spike_triggered_phase (Bare grid_signal) (Bare boundary_train) false
    = Ok (P, A, T)
    /\ spikes boundary_train
       = [t_start grid_signal; b64 3 10; t_stop grid_signal]
    /\ exists phases amps tms,
      nth_error P 0 = Some phases
      /\ nth_error A 0 = Some amps
      /\ nth_error T 0 = Some tms
      /\ magnitude tms
         = filter (fun t => t_le (t_start grid_signal) t
                            && t_lt t (t_stop grid_signal))
                  (spikes boundary_train)
      /\ length phases = length (magnitude tms)
      /\ length (magnitude amps) = length (magnitude tms)
      /\ ~ In (t_stop grid_signal) (magnitude tms)
      /\ In (t_start grid_signal) (magnitude tms).
Proof.
  do 3 eexists. split; [reflexivity|]. split; [reflexivity|].
  assert (Hcall : spike_triggered_phase (Bare grid_signal)
                                        (Bare boundary_train) false
                  = Ok (_, _, _)) by reflexivity.
  destruct (@window_left_closed_right_open
              spec_float R _ _ _ (Bare grid_signal) (Bare boundary_train)
              false _ _ _ Hcall 0%nat boundary_train grid_signal
              eq_refl eq_refl)
    as [phases [amps [tms [HP [HA [HT [Hm [Hl1 [Hl2 [Hstop Hstart]]]]]]]]]].
  exists phases, amps, tms.
  split; [exact HP|]. split; [exact HA|]. split; [exact HT|].
  split; [exact Hm|]. split; [exact Hl1|]. split; [exact Hl2|].
  split.
  - apply Hstop. reflexivity.
  - apply Hstart; [reflexivity|reflexivity|]. left. reflexivity.
Defined.

(** ** One spike train, several signals *)

(** C1 (as amended). With exactly one spike train and more than one
    signal, the train is compared with the first signal only: the call
    behaves as the call with that signal alone, and a successful call
    returns one entry, the one of the spike train. *)
Theorem one_train_uses_first_signal {Tm F : Type} {ops : NumOps F}
        {tops : TimeOps Tm} {tval : TimeValue Tm F}
        (ht0 ht1 : AnalogSignal Tm F) (rest : list (AnalogSignal Tm F))
        (spiketrains : arg (SpikeTrain Tm)) (st : SpikeTrain Tm)
        (interpolate : bool) :
  to_list spiketrains = [st] ->
  spike_triggered_phase (PyList (ht0 :: ht1 :: rest)) spiketrains interpolate
  = spike_triggered_phase (Bare ht0) spiketrains interpolate
  /\ forall P A T,
      spike_triggered_phase (PyList (ht0 :: ht1 :: rest)) spiketrains
                            interpolate = Ok (P, A, T) ->
      length P = 1%nat /\ length A = 1%nat /\ length T = 1%nat.
Proof.
  intro Hst. split.
  - unfold spike_triggered_phase. rewrite Hst. reflexivity.
  - intros P A T H. apply result_lengths in H. rewrite Hst in H. exact H.
Qed.

(** The example train with the example signal followed by a second
    signal. *)
Lemma one_train_uses_first_signal_witness :
  exists P A T,
    spike_triggered_phase (PyList [demo_signal; far_signal])
                          (PyList [demo_train]) false = Ok (P, A, T)
    /\ spike_triggered_phase (PyList [demo_signal; far_signal])
                             (PyList [demo_train]) false
       = spike_triggered_phase (Bare demo_signal) (PyList [demo_train]) false
    /\ length P = 1%nat /\ length A = 1%nat /\ length T = 1%nat.
Proof.
  do 3 eexists. split; [reflexivity|].
  pose proof (@one_train_uses_first_signal Q R _ _ _ demo_signal far_signal []
                (PyList [demo_train]) demo_train false eq_refl) as [Heq Hlen].
  split; [exact Heq|]. apply Hlen. reflexivity.
Defined.

(** C1 (as stated) fails: one spike train against two signals yields
    one entry, not two. *)
Lemma one_train_two_signals_one_entry :
  exists P A T,
    spike_triggered_phase (PyList [demo_signal; far_signal])
                          (PyList [demo_train]) false = Ok (P, A, T)
    /\ length [demo_train] = 1%nat
    /\ length [demo_signal; far_signal] = 2%nat
    /\ length P = 1%nat
    /\ length P <> length [demo_signal; far_signal].
Proof.
  do 3 eexists. split; [reflexivity|]. repeat split. discriminate.
Qed.

(** ** A spike train without retained events *)

(** A successful call has at least one retained event for every
    spike train. *)
Lemma successful_call_has_events {Tm F : Type} {ops : NumOps F}
        {tops : TimeOps Tm} {tval : TimeValue Tm F}
      (hilbert_transform : arg (AnalogSignal Tm F))
      (spiketrains : arg (SpikeTrain Tm)) (interpolate : bool) P A T :
  spike_triggered_phase hilbert_transform spiketrains interpolate
  = Ok (P, A, T) ->
  forall j st ht,
    nth_error (to_list spiketrains) j = Some st ->
    nth_error (to_list hilbert_transform)
              (phase_index (length (to_list hilbert_transform)) j) = Some ht ->
    retained ht st <> [].
Proof.
  intros H j st ht Hj Hht Hnil. apply spike_triggered_phase_spec in H.
  destruct H as [es [Hes [_ [_ HT]]]].
  apply nth_error_enumerate in Hj.
  destruct (Forall2_nth_error Hes _ Hj) as [e [He [ht' [ps [Hht' [_ Heq]]]]]].
  cbn [fst snd] in Hht', Heq. rewrite Hht in Hht'. inversion Hht'; subst ht'.
  assert (Et : nth_error (map snd es) j = Some (snd e))
    by (rewrite nth_error_map, He; reflexivity).
  destruct (Forall2_nth_error HT _ Et) as [tms [_ [_ [e0 [Hhd _]]]]].
  subst e. cbn [snd] in Hhd. rewrite Hnil in Hhd. discriminate.
Qed.

(** C2: what the code does. For a spike train with no event inside the
    window of the signal the call raises [IndexError], with and without
    interpolation, instead of returning empty sequences. *)
Theorem empty_entry_raises_IndexError :
  retained demo_signal late_train = []
  /\ spike_triggered_phase (Bare demo_signal) (Bare late_train) true
     = Raise IndexError
  /\ spike_triggered_phase (Bare demo_signal) (Bare late_train) false
     = Raise IndexError.
Proof.
  repeat split.
Qed.

(** * Further properties of [pairwise_phase_consistency] *)

(** ** When the call returns *)

Lemma check_arrays_Ok {F : Type} (l : list (pyobj F)) (arrays : list (ndarray F)) :
  check_arrays l = Ok arrays ->
  l = map (@PyArray F) arrays /\ Forall (fun a => ndim a = 1%nat) arrays.
Proof.
  revert arrays. induction l as [|o l IH]; intros arrays H.
  - inversion H. split; constructor.
  - destruct o as [a|]; [|discriminate]. cbn [check_arrays] in H.
    destruct (Nat.eqb_spec (ndim a) 1) as [Ha|Ha]; [|discriminate].
    cbn [negb] in H.
    destruct (check_arrays l) as [rest|] eqn:E; [|discriminate].
    inversion H; subst. destruct (IH rest eq_refl) as [Hl Hf].
    split; [cbn [map]; congruence|constructor; assumption].
Qed.

Lemma is_array1d_map {F : Type} (arrays : list (ndarray F)) :
  Forall (fun a => ndim a = 1%nat) arrays ->
  Forall (fun o => is_array1d o = true) (map (@PyArray F) arrays).
Proof.
  induction 1 as [|a l Ha _ IH]; constructor; [|exact IH].
  cbn [is_array1d]. apply Nat.eqb_eq. exact Ha.
Qed.

Lemma check_arrays_accepts {F : Type} (l : list (pyobj F)) :
  Forall (fun o => is_array1d o = true) l ->
  exists arrays, check_arrays l = Ok arrays.
Proof.
  induction 1 as [|o l Ho _ [arrays IH]].
  - exists []. reflexivity.
  - destruct o as [a|]; [|discriminate]. cbn [is_array1d] in Ho.
    cbn [check_arrays]. rewrite Ho, IH. eexists. reflexivity.
Qed.

(** X11. For an input whose arrays are arrays of floats, the call
    returns exactly when the method is ['ppc0'] and the normalised
    input is a non-empty list of one-dimensional arrays; it never
    returns [None]: the branch of ['ppc1'] and the end of the function
    are not reached. *)
Theorem ppc_returns_iff {F : Type} {ops : NumOps F}
        (phases : arg (pyobj F)) (method : string) :
  ((exists x, pairwise_phase_consistency phases method = Ok (Some x))
   <-> method = "ppc0"%string
       /\ to_list phases <> []
       /\ Forall (fun o => is_array1d o = true) (to_list phases))
  /\ pairwise_phase_consistency phases method <> Ok None.
Proof.
  unfold pairwise_phase_consistency.
  destruct (check_arrays (to_list phases)) as [arrays|e] eqn:Hc; cbn [bind].
  - apply check_arrays_Ok in Hc. destruct Hc as [Hl H1].
    cbn [existsb]. rewrite orb_false_r.
    destruct (String.eqb_spec method "ppc0") as [->|Hm]; cbn [negb].
    + destruct arrays as [|a arrays]; cbn [hstack bind].
      * split; [|discriminate]. split; [intros [x H]; discriminate|].
        intros [_ [Hne _]]. rewrite Hl in Hne. contradiction.
      * split; [|discriminate]. split; [|intros _; eexists; reflexivity].
        intros _. rewrite Hl. split; [reflexivity|].
        split; [discriminate|]. apply is_array1d_map. exact H1.
    + split; [|discriminate]. split; [intros [x H]; discriminate|].
      intros [Heq _]. contradiction.
  - split; [|discriminate]. split; [intros [x H]; discriminate|].
    intros [_ [_ Hall]]. destruct (check_arrays_accepts Hall) as [arrays Hl].
    congruence.
Qed.

(** ** The sum over pairs in closed form *)

Section ClosedForm.
Local Open Scope R_scope.

Lemma Rsum_app (l1 l2 : list R) : Rsum (l1 ++ l2) = Rsum l1 + Rsum l2.
Proof.
  induction l1 as [|x l1 IH]; simpl; [lra|]. fold (Rsum (l1 ++ l2)).
  fold (Rsum l1). rewrite IH. lra.
Qed.

Lemma Rsum_map_ext {A : Type} (g h : A -> R) (l : list A) :
  (forall x, In x l -> g x = h x) -> Rsum (map g l) = Rsum (map h l).
Proof.
  intro H. f_equal. apply map_ext_in. exact H.
Qed.

Lemma Rsum_map_plus {A : Type} (g h : A -> R) (l : list A) :
  Rsum (map (fun x => g x + h x) l) = Rsum (map g l) + Rsum (map h l).
Proof.
  induction l as [|x l IH]; simpl; [lra|].
  fold (Rsum (map (fun x => g x + h x) l)) (Rsum (map g l)) (Rsum (map h l)).
  rewrite IH. lra.
Qed.

Lemma Rsum_map_scal {A : Type} (c : R) (g : A -> R) (l : list A) :
  Rsum (map (fun x => c * g x) l) = c * Rsum (map g l).
Proof.
  induction l as [|x l IH]; simpl; [lra|].
  fold (Rsum (map (fun x => c * g x) l)) (Rsum (map g l)).
  rewrite IH. lra.
Qed.

(** A sum of products over a rectangle of indices factors. *)
Lemma Rsum_list_prod {A B : Type} (f : A -> R) (g : B -> R)
      (la : list A) (lb : list B) :
  Rsum (map (fun ab => f (fst ab) * g (snd ab)) (list_prod la lb))
  = Rsum (map f la) * Rsum (map g lb).
Proof.
  induction la as [|a la IH]; simpl; [lra|].
  fold (Rsum (map f la)).
  rewrite map_app, Rsum_app, IH, map_map. cbn [fst snd].
  rewrite (Rsum_map_scal (f a) g lb). lra.
Qed.

Lemma Rsum_filter_split {A : Type} (p : A -> bool) (h : A -> R) (l : list A) :
  Rsum (map h l)
  = Rsum (map h (filter p l))
    + Rsum (map h (filter (fun x => negb (p x)) l)).
Proof.
  induction l as [|x l IH]; simpl; [lra|].
  fold (Rsum (map h l)). rewrite IH.
  destruct (p x); simpl; lra.
Qed.

Lemma map_nth_seq (theta : list R) :
  map (fun j => nth j theta 0) (seq 0 (length theta)) = theta.
Proof.
  assert (G : forall pre,
             map (fun j => nth j (pre ++ theta) 0)
                 (seq (length pre) (length theta)) = theta).
  { induction theta as [|x l IH]; intro pre; simpl; [reflexivity|].
    rewrite nth_middle. f_equal.
    specialize (IH (pre ++ [x])).
    rewrite <- app_assoc, length_app, Nat.add_1_r in IH. exact IH. }
  apply (G []).
Qed.

Lemma Rsum_over_positions (f : R -> R) (theta : list R) :
  Rsum (map (fun j => f (nth j theta 0)) (seq 0 (length theta)))
  = Rsum (map f theta).
Proof.
  rewrite <- (map_map (fun j => nth j theta 0) f), map_nth_seq. reflexivity.
Qed.

Lemma diagonal_length (n : nat) :
  length (filter (fun jk : nat * nat => negb (negb (fst jk =? snd jk)%nat))
                 (indices n n)) = n.
Proof.
  pose proof (filter_length (fun jk : nat * nat => negb (fst jk =? snd jk)%nat)
                            (indices n n)) as H.
  fold (ordered_pairs n) in H. rewrite length_ordered_pairs in H.
  unfold indices in H at 2. rewrite length_prod, length_seq in H.
  destruct n as [|n]; [simpl in *; lia|].
  replace (S n - 1)%nat with n in H by lia. nia.
Qed.

(** The sum over ordered pairs from the two sums over the phases. *)
Lemma pair_cos_sum_closed (theta : list R) :
  pair_cos_sum theta
  = Rsum (map cos theta) * Rsum (map cos theta)
    + Rsum (map sin theta) * Rsum (map sin theta)
    - INR (length theta).
Proof.
  unfold pair_cos_sum, ordered_pairs.
  set (h := fun jk : nat * nat =>
              cos (nth (fst jk) theta 0 - nth (snd jk) theta 0)).
  set (L := indices (length theta) (length theta)).
  pose proof (Rsum_filter_split
                (fun jk : nat * nat => negb (fst jk =? snd jk)%nat) h L) as Hs.
  assert (Hd : Rsum (map h (filter (fun jk : nat * nat =>
                                      negb (negb (fst jk =? snd jk)%nat)) L))
               = INR (length theta)).
  { rewrite (Rsum_map_const (c := 1)).
    - unfold L. rewrite diagonal_length. lra.
    - intros [j k] Hin. apply filter_In in Hin. destruct Hin as [_ Hjk].
      rewrite negb_involutive in Hjk. cbn [fst snd] in Hjk.
      apply Nat.eqb_eq in Hjk. subst k. unfold h. cbn [fst snd].
      rewrite Rminus_diag. apply cos_0. }
  assert (Hall : Rsum (map h L)
                 = Rsum (map cos theta) * Rsum (map cos theta)
                   + Rsum (map sin theta) * Rsum (map sin theta)).
  { rewrite (Rsum_map_ext h
               (fun jk => cos (nth (fst jk) theta 0) * cos (nth (snd jk) theta 0)
                          + sin (nth (fst jk) theta 0)
                            * sin (nth (snd jk) theta 0)))
      by (intros jk _; unfold h; apply cos_minus).
    rewrite (Rsum_map_plus
               (fun jk : nat * nat =>
                  cos (nth (fst jk) theta 0) * cos (nth (snd jk) theta 0))
               (fun jk : nat * nat =>
                  sin (nth (fst jk) theta 0) * sin (nth (snd jk) theta 0))).
    unfold L, indices.
    rewrite (Rsum_list_prod (fun j => cos (nth j theta 0))
                            (fun k => cos (nth k theta 0))),
            (Rsum_list_prod (fun j => sin (nth j theta 0))
                            (fun k => sin (nth k theta 0))).
    rewrite !Rsum_over_positions. reflexivity. }
  lra.
Qed.

Lemma Rsum_Permutation (l l' : list R) :
  Permutation l l' -> Rsum l = Rsum l'.
Proof.
  induction 1 as [|x l l' _ IH|x y l|l l' l'' _ IH1 _ IH2].
  - reflexivity.
  - simpl. fold (Rsum l) (Rsum l'). lra.
  - simpl. lra.
  - congruence.
Qed.

Lemma Rsum_map_le {A : Type} (c : R) (g : A -> R) (l : list A) :
  (forall x, In x l -> g x <= c) -> Rsum (map g l) <= INR (length l) * c.
Proof.
  induction l as [|x l IH]; intro H.
  - simpl. lra.
  - cbn [map Rsum fold_right length]. fold (Rsum (map g l)).
    rewrite S_INR.
    assert (g x <= c) by (apply H; simpl; auto).
    assert (Rsum (map g l) <= INR (length l) * c)
      by (apply IH; intros; apply H; simpl; auto).
    lra.
Qed.
End ClosedForm.

(** ** The statistic from two sums, its range and its symmetries *)

(** X12. For [N >= 2] pooled phases, [ppc0] is obtained from the sum
    of the cosines and the sum of the sines alone:
    [((sum cos)^2 + (sum sin)^2 - N) / (N (N - 1))] (exact
    arithmetic). *)
Theorem ppc0_from_two_sums
        (phases : arg (pyobj R)) (arrays : list (ndarray R)) :
  to_list phases = map (@PyArray R) arrays ->
  Forall (fun a => ndim a = 1%nat) arrays ->
  (2 <= length (concat (map (@flat R) arrays)))%nat ->
  let theta := concat (map (@flat R) arrays) in
  let C := Rsum (map cos theta) in
  let S := Rsum (map sin theta) in
  let N := INR (length theta) in
  pairwise_phase_consistency phases "ppc0"
  = Ok (Some ((C * C + S * S - N) / (N * (N - 1)))%R).
Proof.
  intros Hl H1 HN theta C S N.
  rewrite (ppc0_real phases Hl H1 (pooled_nonempty HN)).
  fold theta. rewrite pair_cos_sum_closed. fold C S N.
  do 2 f_equal. f_equal. ring.
Qed.

(** Two phases a quarter turn apart. *)
Lemma ppc0_from_two_sums_witness :
  pairwise_phase_consistency (Bare (PyArray (array1d [0; PI / 2]%R))) "ppc0"
  = Ok (Some (((cos 0 + (cos (PI / 2) + 0)) * (cos 0 + (cos (PI / 2) + 0))
               + (sin 0 + (sin (PI / 2) + 0)) * (sin 0 + (sin (PI / 2) + 0))
               - INR 2) / (INR 2 * (INR 2 - 1)))%R).
Proof.
  apply (@ppc0_from_two_sums (Bare (PyArray (array1d [0; PI / 2]%R)))
                             [array1d [0; PI / 2]%R]).
  - reflexivity.
  - repeat constructor.
  - simpl. lia.
Defined.

(** X13. The result does not depend on the order of the pooled phases
    nor on how they are split into trials: two valid inputs whose
    pooled phases are permutations of each other give the same [ppc0]
    (exact arithmetic, [N >= 2]). *)
Theorem ppc0_permutation_invariant
        (phases1 phases2 : arg (pyobj R)) (arrays1 arrays2 : list (ndarray R)) :
  to_list phases1 = map (@PyArray R) arrays1 ->
  to_list phases2 = map (@PyArray R) arrays2 ->
  Forall (fun a => ndim a = 1%nat) arrays1 ->
  Forall (fun a => ndim a = 1%nat) arrays2 ->
  Permutation (concat (map (@flat R) arrays1)) (concat (map (@flat R) arrays2)) ->
  (2 <= length (concat (map (@flat R) arrays1)))%nat ->
  pairwise_phase_consistency phases1 "ppc0"
  = pairwise_phase_consistency phases2 "ppc0".
Proof.
  intros Hl1 Hl2 Hv1 Hv2 Hp HN.
  assert (HN2 : (2 <= length (concat (map (@flat R) arrays2)))%nat)
    by (rewrite <- (Permutation_length Hp); exact HN).
  rewrite (ppc0_real phases1 Hl1 Hv1 (pooled_nonempty HN)),
          (ppc0_real phases2 Hl2 Hv2 (pooled_nonempty HN2)).
  rewrite !pair_cos_sum_closed, (Permutation_length Hp).
  rewrite (Rsum_Permutation (Permutation_map cos Hp)),
          (Rsum_Permutation (Permutation_map sin Hp)).
  reflexivity.
Qed.

(** Three phases as one trial, and reordered as two trials. *)
Lemma ppc0_permutation_invariant_witness :
  pairwise_phase_consistency (Bare (PyArray (array1d [0; 1; 2]%R))) "ppc0"
  = pairwise_phase_consistency
      (PyList [PyArray (array1d [1; 0]%R); PyArray (array1d [2%R])]) "ppc0".
Proof.
  apply (@ppc0_permutation_invariant
           (Bare (PyArray (array1d [0; 1; 2]%R)))
           (PyList [PyArray (array1d [1; 0]%R); PyArray (array1d [2%R])])
           [array1d [0; 1; 2]%R] [array1d [1; 0]%R; array1d [2%R]]).
  - reflexivity.
  - reflexivity.
  - repeat constructor.
  - repeat constructor.
  - simpl. apply perm_swap.
  - simpl. lia.
Defined.

(** X14. For [N >= 2] pooled phases the result lies between
    [- 1 / (N - 1)] and [1] (exact arithmetic). *)
Theorem ppc0_range
        (phases : arg (pyobj R)) (arrays : list (ndarray R)) :
  to_list phases = map (@PyArray R) arrays ->
  Forall (fun a => ndim a = 1%nat) arrays ->
  (2 <= length (concat (map (@flat R) arrays)))%nat ->
  exists x,
    pairwise_phase_consistency phases "ppc0" = Ok (Some x)
    /\ (- 1 / (INR (length (concat (map (@flat R) arrays))) - 1) <= x <= 1)%R.
Proof.
  intros Hl H1 HN.
  rewrite (ppc0_real phases Hl H1 (pooled_nonempty HN)).
  set (theta := concat (map (@flat R) arrays)) in *.
  eexists. split; [reflexivity|].
  assert (HN' : (2 <= INR (length theta))%R).
  { change 2%R with (INR 2). apply le_INR. exact HN. }
  assert (Hup : (pair_cos_sum theta
                 <= INR (length theta) * (INR (length theta) - 1))%R).
  { unfold pair_cos_sum.
    pose proof (@Rsum_map_le _ 1%R
                  (fun jk : nat * nat =>
                     cos (nth (fst jk) theta 0 - nth (snd jk) theta 0)%R)
                  (ordered_pairs (length theta))) as H.
    rewrite length_ordered_pairs, mult_INR, minus_INR in H by lia.
    simpl INR in H. rewrite Rmult_1_r in H. apply H.
    intros jk _. apply COS_bound. }
  assert (Hlow : (- INR (length theta) <= pair_cos_sum theta)%R).
  { rewrite pair_cos_sum_closed.
    pose proof (Rle_0_sqr (Rsum (map cos theta))) as Hc.
    pose proof (Rle_0_sqr (Rsum (map sin theta))) as Hs.
    unfold Rsqr in Hc, Hs. lra. }
  set (n := INR (length theta)) in *.
  set (s := pair_cos_sum theta) in *.
  assert (Hd : (0 < n * n - n)%R) by nra.
  split.
  - apply Rmult_le_reg_r with (n * n - n)%R; [exact Hd|].
    replace (- 1 / (n - 1) * (n * n - n))%R with (- n)%R by (field; lra).
    replace (s / (n * n - n) * (n * n - n))%R with s by (field; lra).
    exact Hlow.
  - apply Rmult_le_reg_r with (n * n - n)%R; [exact Hd|].
    replace (s / (n * n - n) * (n * n - n))%R with s by (field; lra).
    lra.
Qed.

(** Two opposite phases. *)
Lemma ppc0_range_witness :
  exists x,
    pairwise_phase_consistency (Bare (PyArray (array1d [0; PI]%R))) "ppc0"
    = Ok (Some x)
    /\ (- 1 / (INR 2 - 1) <= x <= 1)%R.
Proof.
  apply (@ppc0_range (Bare (PyArray (array1d [0; PI]%R)))
                     [array1d [0; PI]%R]).
  - reflexivity.
  - repeat constructor.
  - simpl. lia.
Defined.

Section Rotation.
Local Open Scope R_scope.

Lemma check_arrays_shift (phi : R) (arrays : list (ndarray R)) :
  check_arrays (map (@PyArray R) (map (shift_array phi) arrays))
  = match check_arrays (map (@PyArray R) arrays) with
    | Ok a => Ok (map (shift_array phi) a)
    | Raise e => Raise e
    end.
Proof.
  induction arrays as [|a l IH]; [reflexivity|].
  cbn [map check_arrays]. change (ndim (shift_array phi a)) with (ndim a).
  destruct (negb (ndim a =? 1)%nat); [reflexivity|].
  rewrite IH. destruct (check_arrays (map (@PyArray R) l)); reflexivity.
Qed.

Lemma pooled_shift (phi : R) (arrays : list (ndarray R)) :
  concat (map (@flat R) (map (shift_array phi) arrays))
  = map (fun x => x + phi) (concat (map (@flat R) arrays)).
Proof.
  induction arrays as [|a l IH]; [reflexivity|].
  cbn [map concat]. rewrite map_app, IH. reflexivity.
Qed.

Lemma pair_cos_sum_shift (phi : R) (theta : list R) :
  pair_cos_sum (map (fun x => x + phi) theta) = pair_cos_sum theta.
Proof.
  unfold pair_cos_sum. rewrite length_map. apply Rsum_map_ext.
  intros [j k] Hin. unfold ordered_pairs in Hin. apply filter_In in Hin.
  destruct Hin as [Hin _]. apply in_indices in Hin. destruct Hin as [Hj Hk].
  cbn [fst snd].
  rewrite !(nth_indep (map (fun x => x + phi) theta) 0 (0 + phi))
    by (rewrite length_map; assumption).
  rewrite !(map_nth (fun x => x + phi)). f_equal. ring.
Qed.
End Rotation.

(** X15. Moving every phase by the same angle does not change the
    outcome of the call, whatever the list of arrays and the method
    (exact arithmetic). *)
Theorem ppc_rotation_invariant
        (phi : R) (arrays : list (ndarray R)) (method : string) :
  pairwise_phase_consistency
    (PyList (map (@PyArray R) (map (shift_array phi) arrays))) method
  = pairwise_phase_consistency (PyList (map (@PyArray R) arrays)) method.
Proof.
  unfold pairwise_phase_consistency. cbn [to_list].
  rewrite check_arrays_shift.
  destruct (check_arrays (map (@PyArray R) arrays)) as [a|e]; [|reflexivity].
  cbn [bind].
  destruct (negb (existsb (String.eqb method) ["ppc0"%string]));
    [reflexivity|].
  destruct a as [|a0 a]; [reflexivity|].
  unfold hstack. cbn [map bind].
  change (concat (flat (shift_array phi a0)
                  :: map (@flat R) (map (shift_array phi) a)))
    with (concat (map (@flat R) (map (shift_array phi) (a0 :: a)))).
  change (concat (flat a0 :: map (@flat R) a))
    with (concat (map (@flat R) (a0 :: a))).
  rewrite pooled_shift, !sum_dot_prod, pair_cos_sum_shift, length_map.
  reflexivity.
Qed.

(** * Further properties of [spike_triggered_phase] *)

(** ** Which error, and when the call returns *)

Section Errors.
Context {Tm F : Type} {ops : NumOps F}.
Context {tops : TimeOps Tm} {tval : TimeValue Tm F}.

Lemma convert_raises {A : Type} (l : list (list (scalar_quantity A))) :
  forall e, convert l = Raise e -> e = IndexError.
Proof.
  induction l as [|entry l IH]; intros e H; [discriminate|].
  cbn [convert] in H. unfold to_quantity, py_getitem in H.
  destruct entry as [|e0 entry]; cbn [nth_error bind] in H; [congruence|].
  destruct (convert l) as [qs|e'] eqn:E; cbn [bind] in H; [discriminate|].
  inversion H; subst. apply IH. reflexivity.
Qed.

(** The test on the two counts. *)
Lemma guard_spec (E S : nat) :
  negb (E =? 1)%nat && negb (S =? 1)%nat && negb (E =? S)%nat = true
  <-> E <> 1%nat /\ S <> 1%nat /\ E <> S.
Proof.
  destruct (Nat.eqb_spec E 1), (Nat.eqb_spec S 1), (Nat.eqb_spec E S);
    cbn [negb andb]; split; intro H; try discriminate; try tauto.
Qed.

Lemma raise_after_guard
      (hilbert_transform : arg (AnalogSignal Tm F))
      (spiketrains : arg (SpikeTrain Tm)) (interpolate : bool) (e : py_error) :
  spike_triggered_phase hilbert_transform spiketrains interpolate = Raise e ->
  e = IndexError
  \/ (e = ValueError
      /\ length (to_list spiketrains) <> 1%nat
      /\ length (to_list hilbert_transform) <> 1%nat
      /\ length (to_list spiketrains) <> length (to_list hilbert_transform)).
Proof.
  unfold spike_triggered_phase. intro H.
  destruct (negb (length (to_list spiketrains) =? 1)%nat
            && negb (length (to_list hilbert_transform) =? 1)%nat
            && negb (length (to_list spiketrains)
                     =? length (to_list hilbert_transform))%nat) eqn:G.
  - right. apply guard_spec in G. inversion H. tauto.
  - left.
    destruct (trains_loop interpolate (to_list hilbert_transform)
                          (enumerate (to_list spiketrains)) ([], [], []))
      as [[[rp ra] rt]|e'] eqn:Hloop; cbn [bind] in H.
    + destruct (convert ra) as [A|e1] eqn:EA; cbn [bind] in H.
      * destruct (convert rt) as [T|e2] eqn:ET; cbn [bind] in H;
          [discriminate|].
        inversion H; subst. apply (convert_raises _ ET).
      * inversion H; subst. apply (convert_raises _ EA).
    + inversion H; subst. apply (trains_loop_raises _ _ _ _ Hloop).
Qed.

Lemma guard_raises
      (hilbert_transform : arg (AnalogSignal Tm F))
      (spiketrains : arg (SpikeTrain Tm)) (interpolate : bool) :
  length (to_list spiketrains) <> 1%nat ->
  length (to_list hilbert_transform) <> 1%nat ->
  length (to_list spiketrains) <> length (to_list hilbert_transform) ->
  spike_triggered_phase hilbert_transform spiketrains interpolate
  = Raise ValueError.
Proof.
  intros H1 H2 H3. unfold spike_triggered_phase.
  rewrite (proj2 (guard_spec _ _)) by tauto. reflexivity.
Qed.
End Errors.

(** X1. The call raises [ValueError] exactly when the number of spike
    trains and the number of signals differ and neither is one; the
    only other error it raises is [IndexError], never [TypeError]. *)
Theorem cardinality_error_iff {Tm F : Type} {ops : NumOps F}
        {tops : TimeOps Tm} {tval : TimeValue Tm F}
        (hilbert_transform : arg (AnalogSignal Tm F))
        (spiketrains : arg (SpikeTrain Tm)) (interpolate : bool) :
  (spike_triggered_phase hilbert_transform spiketrains interpolate
   = Raise ValueError
   <-> length (to_list spiketrains) <> 1%nat
       /\ length (to_list hilbert_transform) <> 1%nat
       /\ length (to_list spiketrains) <> length (to_list hilbert_transform))
  /\ spike_triggered_phase hilbert_transform spiketrains interpolate
     <> Raise TypeError.
Proof.
  split; [split|].
  - intro H. apply raise_after_guard in H.
    destruct H as [H|[_ H]]; [discriminate|exact H].
  - intros [H1 [H2 H3]]. apply guard_raises; assumption.
  - intro H. apply raise_after_guard in H.
    destruct H as [H|[H _]]; discriminate.
Qed.

(** ** What a spike train's entry holds *)

Lemma Forall2_functional {A B : Type} (R : A -> B -> Prop) (l : list A) :
  (forall x y y', R x y -> R x y' -> y = y') ->
  forall l1 l2, Forall2 R l l1 -> Forall2 R l l2 -> l1 = l2.
Proof.
  intro Hf. induction l as [|x l IH]; intros l1 l2 H1 H2.
  - inversion H1. inversion H2. reflexivity.
  - inversion H1; subst. inversion H2; subst. f_equal.
    + eapply Hf; eassumption.
    + apply IH; assumption.
Qed.

Lemma converted_unique {A : Type} (entry : list (scalar_quantity A))
      (q q' : Quantity A) :
  converted entry q -> converted entry q' -> q = q'.
Proof.
  intros [Hm [e0 [Hh Hu]]] [Hm' [e0' [Hh' Hu']]].
  destruct q as [m u], q' as [m' u']. cbn [magnitude q_units] in *.
  rewrite Hh in Hh'. inversion Hh'. subst. reflexivity.
Qed.

Lemma singleton_nth_error {A : Type} (l : list A) (x : A) :
  length l = 1%nat -> nth_error l 0 = Some x -> l = [x].
Proof.
  destruct l as [|y [|z l]]; intros Hlen H; try discriminate.
  inversion H. reflexivity.
Qed.

Section Entries.
Context {Tm F : Type} {ops : NumOps F}.
Context {tops : TimeOps Tm} {tval : TimeValue Tm F}.

Lemma train_samples_unique (interpolate : bool) (ht : AnalogSignal Tm F)
      (events : list Tm) (ps ps' : list (F * scalar_quantity F)) :
  train_samples interpolate ht events ps ->
  train_samples interpolate ht events ps' -> ps = ps'.
Proof.
  apply Forall2_functional. intros t pa pa' H H'. congruence.
Qed.

(** The three sequences returned for spike train number [j], from the
    samples [ps] of its retained events. *)
Lemma entry_of
      (hilbert_transform : arg (AnalogSignal Tm F))
      (spiketrains : arg (SpikeTrain Tm)) (interpolate : bool) P A T :
  spike_triggered_phase hilbert_transform spiketrains interpolate
  = Ok (P, A, T) ->
  forall j st ht,
    nth_error (to_list spiketrains) j = Some st ->
    nth_error (to_list hilbert_transform)
              (phase_index (length (to_list hilbert_transform)) j) = Some ht ->
    exists ps a t,
      train_samples interpolate ht (retained ht st) ps
      /\ nth_error P j = Some (map fst ps)
      /\ nth_error A j = Some a /\ converted (map snd ps) a
      /\ nth_error T j = Some t
      /\ converted (map (fun x => mk_scalar x (st_units st)) (retained ht st)) t.
Proof.
  intros H j st ht Hj Hht. apply spike_triggered_phase_spec in H.
  destruct H as [es [Hes [HP [HA HT]]]].
  apply nth_error_enumerate in Hj.
  destruct (Forall2_nth_error Hes _ Hj) as [e [He [ht' [ps [Hht' [Hps Heq]]]]]].
  cbn [fst snd] in Hht', Hps, Heq.
  rewrite Hht in Hht'. inversion Hht'; subst ht'.
  assert (Ea : nth_error (map (fun e => snd (fst e)) es) j
               = Some (snd (fst e)))
    by (rewrite nth_error_map, He; reflexivity).
  assert (Et : nth_error (map snd es) j = Some (snd e))
    by (rewrite nth_error_map, He; reflexivity).
  destruct (Forall2_nth_error HA _ Ea) as [a [Ha Hca]].
  destruct (Forall2_nth_error HT _ Et) as [t [Ht Hct]].
  subst e. cbn [fst snd] in *.
  exists ps, a, t.
  split; [exact Hps|]. split; [subst P; rewrite nth_error_map, He; reflexivity|].
  split; [exact Ha|]. split; [exact Hca|]. split; [exact Ht|exact Hct].
Qed.

(** The phase and the amplitude returned for one retained event. *)
Lemma entry_values
      (hilbert_transform : arg (AnalogSignal Tm F))
      (spiketrains : arg (SpikeTrain Tm)) (interpolate : bool) P A T :
  spike_triggered_phase hilbert_transform spiketrains interpolate
  = Ok (P, A, T) ->
  forall j st ht i t,
    nth_error (to_list spiketrains) j = Some st ->
    nth_error (to_list hilbert_transform)
              (phase_index (length (to_list hilbert_transform)) j) = Some ht ->
    nth_error (retained ht st) i = Some t ->
    exists e a pa,
      nth_error P j = Some e /\ nth_error A j = Some a
      /\ spike_sample interpolate ht t (sample_index ht t) = Ok pa
      /\ nth_error e i = Some (fst pa)
      /\ nth_error (magnitude a) i = Some (value (snd pa)).
Proof.
  intros H j st ht i t Hj Hht Hi.
  destruct (entry_of _ _ _ H _ Hj Hht)
    as [ps [a [tq [Hps [HP [HA [[Hma _] _]]]]]]].
  destruct (Forall2_nth_error Hps _ Hi) as [pa [Hpa Hs]].
  exists (map fst ps), a, pa.
  split; [exact HP|]. split; [exact HA|]. split; [exact Hs|]. split.
  - rewrite nth_error_map, Hpa. reflexivity.
  - rewrite Hma, map_map, nth_error_map, Hpa. reflexivity.
Qed.

(** What a successful call tells about its arguments. *)
Lemma success_conditions
      (hilbert_transform : arg (AnalogSignal Tm F))
      (spiketrains : arg (SpikeTrain Tm)) (interpolate : bool) P A T :
  spike_triggered_phase hilbert_transform spiketrains interpolate
  = Ok (P, A, T) ->
  (length (to_list spiketrains) = 1
   \/ length (to_list hilbert_transform) = 1
   \/ length (to_list spiketrains) = length (to_list hilbert_transform))%nat
  /\ forall j st,
      nth_error (to_list spiketrains) j = Some st ->
      exists ht,
        nth_error (to_list hilbert_transform)
                  (phase_index (length (to_list hilbert_transform)) j)
        = Some ht
        /\ retained ht st <> []
        /\ indexes_samples ht st.
Proof.
  intro H. split.
  - destruct (Nat.eq_dec (length (to_list spiketrains)) 1) as [|H1];
      [tauto|].
    destruct (Nat.eq_dec (length (to_list hilbert_transform)) 1) as [|H2];
      [tauto|].
    destruct (Nat.eq_dec (length (to_list spiketrains))
                         (length (to_list hilbert_transform))) as [|H3];
      [tauto|].
    rewrite (guard_raises _ _ interpolate H1 H2 H3) in H. discriminate.
  - intros j st Hj.
    pose proof (spike_triggered_phase_spec _ _ _ H) as [es [Hes _]].
    destruct (Forall2_nth_error Hes _ (nth_error_enumerate _ _ Hj))
      as [e [_ [ht [ps [Hht _]]]]].
    cbn [fst] in Hht. exists ht. split; [exact Hht|]. split.
    + apply (successful_call_has_events _ _ _ H _ Hj Hht).
    + destruct (phases_entry _ _ _ H _ Hj Hht) as [ps' [Hps' _]].
      apply (train_samples_valid Hps').
Qed.
End Entries.

(** X2. The call returns exactly when the counts are admitted and
    every spike train has a signal to be compared with, at least one
    event inside the window of that signal, and an index inside the
    signal (from the front or from the end) for each of these
    events. *)
Theorem returns_iff {Tm F : Type} {ops : NumOps F}
        {tops : TimeOps Tm} {tval : TimeValue Tm F}
        (hilbert_transform : arg (AnalogSignal Tm F))
        (spiketrains : arg (SpikeTrain Tm)) (interpolate : bool) :
  (exists P A T,
      spike_triggered_phase hilbert_transform spiketrains interpolate
      = Ok (P, A, T))
  <-> (length (to_list spiketrains) = 1
       \/ length (to_list hilbert_transform) = 1
       \/ length (to_list spiketrains) = length (to_list hilbert_transform))%nat
      /\ forall j st,
          nth_error (to_list spiketrains) j = Some st ->
          exists ht,
            nth_error (to_list hilbert_transform)
                      (phase_index (length (to_list hilbert_transform)) j)
            = Some ht
            /\ retained ht st <> []
            /\ Forall (fun t =>
                         valid_index (length (samples ht))
                                     (sample_index ht t) = true)
                      (retained ht st).
Proof.
  split.
  - intros [P [A [T H]]]. exact (success_conditions _ _ _ H).
  - intros [Hc Hev]. apply spike_triggered_phase_returns; assumption.
Qed.

(** X3. The entry of a spike train in a successful call is what the
    call with that train and its signal alone returns: the trains do
    not influence each other. *)
Theorem entry_is_call_on_its_own {Tm F : Type} {ops : NumOps F}
        {tops : TimeOps Tm} {tval : TimeValue Tm F}
        (hilbert_transform : arg (AnalogSignal Tm F))
        (spiketrains : arg (SpikeTrain Tm)) (interpolate : bool) P A T :
  spike_triggered_phase hilbert_transform spiketrains interpolate
  = Ok (P, A, T) ->
  forall j st ht,
    nth_error (to_list spiketrains) j = Some st ->
    nth_error (to_list hilbert_transform)
              (phase_index (length (to_list hilbert_transform)) j) = Some ht ->
    exists p a t,
      nth_error P j = Some p /\ nth_error A j = Some a
      /\ nth_error T j = Some t
      /\ spike_triggered_phase (Bare ht) (Bare st) interpolate
         = Ok ([p], [a], [t]).
Proof.
  intros H j st ht Hj Hht.
  destruct (entry_of _ _ _ H _ Hj Hht)
    as [ps [a [t [Hps [HP [HA [Hca [HT Hct]]]]]]]].
  exists (map fst ps), a, t.
  split; [exact HP|]. split; [exact HA|]. split; [exact HT|].
  destruct (@spike_triggered_phase_returns Tm F ops tops tval
                                           (Bare ht) (Bare st) interpolate)
    as [P' [A' [T' H']]].
  { left. reflexivity. }
  { intros j' st' Hj'. destruct j' as [|j']; [|destruct j'; discriminate].
    inversion Hj'; subst st'. exists ht. split; [reflexivity|]. split.
    - apply (successful_call_has_events _ _ _ H _ Hj Hht).
    - apply (train_samples_valid Hps). }
  rewrite H'.
  destruct (result_lengths _ _ _ H') as [LP [LA LT]].
  destruct (entry_of _ _ _ H' 0%nat (st := st) (ht := ht) eq_refl eq_refl)
    as [ps' [a' [t' [Hps' [HP' [HA' [Hca' [HT' Hct']]]]]]]].
  rewrite (train_samples_unique Hps' Hps) in *.
  rewrite (converted_unique Hca' Hca) in *.
  rewrite (converted_unique Hct' Hct) in *.
  rewrite (singleton_nth_error P' LP HP'), (singleton_nth_error A' LA HA'),
          (singleton_nth_error T' LT HT').
  reflexivity.
Qed.

(** The second of two trains compared with the example signal. *)
Lemma entry_is_call_on_its_own_witness :
  exists P A T p a t,
    spike_triggered_phase (Bare demo_signal)
                          (PyList [demo_train; edge_train]) true
    = Ok (P, A, T)
    /\ nth_error P 1 = Some p /\ nth_error A 1 = Some a
    /\ nth_error T 1 = Some t
    /\ spike_triggered_phase (Bare demo_signal) (Bare edge_train) true
       = Ok ([p], [a], [t]).
Proof.
  do 3 eexists.
  assert (Hcall : spike_triggered_phase
                    (Bare demo_signal) (PyList [demo_train; edge_train]) true
                  = Ok (_, _, _)) by reflexivity.
  pose proof (@entry_is_call_on_its_own
                Q R _ _ _ (Bare demo_signal) (PyList [demo_train; edge_train])
                true _ _ _ Hcall 1%nat edge_train demo_signal
                eq_refl eq_refl) as [p [a [t H]]].
  exists p, a, t. split; [reflexivity|exact H].
Defined.

Lemma entries_agree {Tm F : Type} {ops : NumOps F}
        {tops : TimeOps Tm} {tval : TimeValue Tm F} (i1 i2 : bool)
      (hts : list (AnalogSignal Tm F)) (todo : list (nat * SpikeTrain Tm)) :
  forall es1 es2,
    Forall2 (train_entry i1 hts) todo es1 ->
    Forall2 (train_entry i2 hts) todo es2 ->
    map snd es1 = map snd es2
    /\ map (fun e => length (fst (fst e))) es1
       = map (fun e => length (fst (fst e))) es2.
Proof.
  induction todo as [|jst todo IH]; intros es1 es2 H1 H2.
  - inversion H1. inversion H2. split; reflexivity.
  - inversion H1 as [|? e1 ? es1' He1 Hr1]; subst.
    inversion H2 as [|? e2 ? es2' He2 Hr2]; subst.
    destruct (IH _ _ Hr1 Hr2) as [IHa IHb].
    destruct He1 as [ht [ps [Hht [Hps ->]]]].
    destruct He2 as [ht' [ps' [Hht' [Hps' ->]]]].
    rewrite Hht in Hht'. inversion Hht'; subst ht'.
    apply Forall2_length in Hps, Hps'.
    cbn [map fst snd]. rewrite IHa, IHb, !length_map. split; congruence.
Qed.

(** X5. Whether the call returns does not depend on [interpolate], and
    neither do the returned times and the lengths of the returned
    phase sequences. *)
Theorem interpolate_keeps_times {Tm F : Type} {ops : NumOps F}
        {tops : TimeOps Tm} {tval : TimeValue Tm F}
        (hilbert_transform : arg (AnalogSignal Tm F))
        (spiketrains : arg (SpikeTrain Tm)) (i1 i2 : bool) P1 A1 T1 :
  spike_triggered_phase hilbert_transform spiketrains i1 = Ok (P1, A1, T1) ->
  exists P2 A2,
    spike_triggered_phase hilbert_transform spiketrains i2 = Ok (P2, A2, T1)
    /\ map (@length F) P2 = map (@length F) P1.
Proof.
  intro H1.
  destruct (success_conditions _ _ _ H1) as [Hc Hev].
  destruct (@spike_triggered_phase_returns Tm F ops tops tval
                                           hilbert_transform spiketrains
                                           i2 Hc Hev) as [P2 [A2 [T2 H2]]].
  pose proof (spike_triggered_phase_spec _ _ _ H1)
    as [es1 [Hes1 [HP1 [_ HT1]]]].
  pose proof (spike_triggered_phase_spec _ _ _ H2)
    as [es2 [Hes2 [HP2 [_ HT2]]]].
  destruct (entries_agree Hes1 Hes2) as [Hsnd Hlen].
  rewrite Hsnd in HT1.
  assert (T2 = T1)
    by (eapply Forall2_functional;
        [intros x y y'; apply converted_unique|eassumption|eassumption]).
  subst T2. exists P2, A2. split; [exact H2|].
  subst P1 P2. rewrite !map_map. symmetry. exact Hlen.
Qed.

(** The example call with and without interpolation. *)
Lemma interpolate_keeps_times_witness :
  exists P1 A1 T1 P2 A2,
    spike_triggered_phase (Bare demo_signal) (Bare demo_train) true
    = Ok (P1, A1, T1)
    /\ spike_triggered_phase (Bare demo_signal) (Bare demo_train) false
       = Ok (P2, A2, T1)
    /\ map (@length R) P2 = map (@length R) P1.
Proof.
  do 3 eexists.
  assert (Hcall : spike_triggered_phase
                    (Bare demo_signal) (Bare demo_train) true
                  = Ok (_, _, _)) by reflexivity.
  pose proof (@interpolate_keeps_times
                Q R _ _ _ (Bare demo_signal) (Bare demo_train) true false
                _ _ _ Hcall) as [P2 [A2 H]].
  exists P2, A2. split; [reflexivity|exact H].
Defined.
(** ** Events on the last sample, and events on one sample *)

Lemma spike_sample_last {Tm F : Type} {ops : NumOps F}
        {tops : TimeOps Tm} {tval : TimeValue Tm F}
      (ht : AnalogSignal Tm F) (t : Tm) (k : Z) :
  (k + 1 = Z.of_nat (length (samples ht)))%Z ->
  spike_sample true ht t k = spike_sample false ht t k.
Proof.
  intro Hk. unfold spike_sample. rewrite length_times.
  destruct (Z.ltb_spec (k + 1) (Z.of_nat (length (samples ht)))); [lia|].
  reflexivity.
Qed.

(** X6. An event that falls on the last sample of its signal has no
    successor sample: the call with interpolation returns for it the
    phase and the amplitude that the call without interpolation
    returns. *)
Theorem last_sample_is_not_interpolated {Tm F : Type} {ops : NumOps F}
        {tops : TimeOps Tm} {tval : TimeValue Tm F}
        (hilbert_transform : arg (AnalogSignal Tm F))
        (spiketrains : arg (SpikeTrain Tm)) P1 A1 T1 P0 A0 T0 :
  spike_triggered_phase hilbert_transform spiketrains true = Ok (P1, A1, T1) ->
  spike_triggered_phase hilbert_transform spiketrains false = Ok (P0, A0, T0) ->
  forall j st ht i t,
    nth_error (to_list spiketrains) j = Some st ->
    nth_error (to_list hilbert_transform)
              (phase_index (length (to_list hilbert_transform)) j) = Some ht ->
    nth_error (retained ht st) i = Some t ->
    (sample_index ht t + 1 = Z.of_nat (length (samples ht)))%Z ->
    exists e1 e0 a1 a0 p m,
      nth_error P1 j = Some e1 /\ nth_error P0 j = Some e0
      /\ nth_error A1 j = Some a1 /\ nth_error A0 j = Some a0
      /\ nth_error e1 i = Some p /\ nth_error e0 i = Some p
      /\ nth_error (magnitude a1) i = Some m
      /\ nth_error (magnitude a0) i = Some m.
Proof.
  intros H1 H0 j st ht i t Hj Hht Hi Hk.
  destruct (entry_values _ _ _ H1 _ _ Hj Hht Hi)
    as [e1 [a1 [pa1 [HP1 [HA1 [Hs1 [Hp1 Hm1]]]]]]].
  destruct (entry_values _ _ _ H0 _ _ Hj Hht Hi)
    as [e0 [a0 [pa0 [HP0 [HA0 [Hs0 [Hp0 Hm0]]]]]]].
  rewrite (spike_sample_last ht t _ Hk), Hs0 in Hs1.
  inversion Hs1; subst pa1.
  exists e1, e0, a1, a0, (fst pa0), (value (snd pa0)).
  repeat split; assumption.
Qed.

(** The event at [5 / 2] falls on the third and last sample of the
    example signal. *)
Lemma last_sample_is_not_interpolated_witness :
  exists P1 A1 T1 P0 A0 T0,
    spike_triggered_phase (Bare demo_signal) (Bare edge_train) true
    = Ok (P1, A1, T1)
    /\ spike_triggered_phase (Bare demo_signal) (Bare edge_train) false
       = Ok (P0, A0, T0)
    /\ nth_error (retained demo_signal edge_train) 1 = Some (5 # 2)
    /\ exists e1 e0 a1 a0 p m,
        nth_error P1 0 = Some e1 /\ nth_error P0 0 = Some e0
        /\ nth_error A1 0 = Some a1 /\ nth_error A0 0 = Some a0
        /\ nth_error e1 1 = Some p /\ nth_error e0 1 = Some p
        /\ nth_error (magnitude a1) 1 = Some m
        /\ nth_error (magnitude a0) 1 = Some m.
Proof.
  do 6 eexists. split; [reflexivity|]. split; [reflexivity|].
  split; [reflexivity|].
  refine (@last_sample_is_not_interpolated
            Q R _ _ _ (Bare demo_signal) (Bare edge_train) _ _ _ _ _ _
            _ _ 0%nat edge_train demo_signal 1%nat (5 # 2) _ _ _ _);
    reflexivity.
Defined.

(** X7. Without interpolation, two retained events of a spike train
    that fall on the same sample get the same phase and the same
    amplitude. *)
Theorem same_sample_same_phase {Tm F : Type} {ops : NumOps F}
        {tops : TimeOps Tm} {tval : TimeValue Tm F}
        (hilbert_transform : arg (AnalogSignal Tm F))
        (spiketrains : arg (SpikeTrain Tm)) P A T :
  spike_triggered_phase hilbert_transform spiketrains false = Ok (P, A, T) ->
  forall j st ht i1 t1 i2 t2,
    nth_error (to_list spiketrains) j = Some st ->
    nth_error (to_list hilbert_transform)
              (phase_index (length (to_list hilbert_transform)) j) = Some ht ->
    nth_error (retained ht st) i1 = Some t1 ->
    nth_error (retained ht st) i2 = Some t2 ->
    sample_index ht t1 = sample_index ht t2 ->
    exists e a p m,
      nth_error P j = Some e /\ nth_error A j = Some a
      /\ nth_error e i1 = Some p /\ nth_error e i2 = Some p
      /\ nth_error (magnitude a) i1 = Some m
      /\ nth_error (magnitude a) i2 = Some m.
Proof.
  intros H j st ht i1 t1 i2 t2 Hj Hht Hi1 Hi2 Hk.
  destruct (entry_values _ _ _ H _ _ Hj Hht Hi1)
    as [e [a [pa1 [HP [HA [Hs1 [Hp1 Hm1]]]]]]].
  destruct (entry_values _ _ _ H _ _ Hj Hht Hi2)
    as [e' [a' [pa2 [HP' [HA' [Hs2 [Hp2 Hm2]]]]]]].
  rewrite HP in HP'. inversion HP'; subst e'.
  rewrite HA in HA'. inversion HA'; subst a'.
  assert (pa1 = pa2).
  { rewrite Hk in Hs1. unfold spike_sample in Hs1, Hs2.
    cbn [andb] in Hs1, Hs2. congruence. }
  subst pa2.
  exists e, a, (fst pa1), (value (snd pa1)). repeat split; assumption.
Qed.

(** The events at [0] and at [1 / 2] both fall on the first sample of
    the example signal. *)
Lemma same_sample_same_phase_witness :
  exists P A T,
    spike_triggered_phase (Bare demo_signal) (Bare demo_train) false
    = Ok (P, A, T)
    /\ sample_index demo_signal 0 = sample_index demo_signal (1 # 2)
    /\ exists e a p m,
        nth_error P 0 = Some e /\ nth_error A 0 = Some a
        /\ nth_error e 0 = Some p /\ nth_error e 1 = Some p
        /\ nth_error (magnitude a) 0 = Some m
        /\ nth_error (magnitude a) 1 = Some m.
Proof.
  do 3 eexists. split; [reflexivity|]. split; [reflexivity|].
  refine (@same_sample_same_phase
            Q R _ _ _ (Bare demo_signal) (Bare demo_train) _ _ _ _
            0%nat demo_train demo_signal 0%nat 0 1%nat (1 # 2) _ _ _ _ _);
    reflexivity.
Defined.
(** ** Between two samples *)

Section Interpolated.
Context {Tm F : Type} {ops : NumOps F}.
Context {tops : TimeOps Tm} {tval : TimeValue Tm F}.

Lemma np_getitem_Ok_valid {A : Type} (l : list A) (i : Z) (a : A) :
  np_getitem l i = Ok a -> valid_index (length l) i = true.
Proof.
  intro H. destruct (valid_index (length l) i) eqn:V; [reflexivity|].
  rewrite np_getitem_invalid in H by assumption. discriminate.
Qed.

(** The loop body with interpolation, for an event whose sample has a
    successor. *)
Lemma spike_sample_interpolated (ht : AnalogSignal Tm F) (t : Tm) (k : Z)
      (s1 s2 : complex F) :
  np_getitem (samples ht) k = Ok s1 ->
  np_getitem (samples ht) (k + 1) = Ok s2 ->
  exists z,
    offset ht t k = Ok z
    /\ spike_sample true ht t k
       = Ok (angle (c_add (c_scale (f_sub f_one (t_to_F z)) (exp_i (angle s1)))
                          (c_scale (t_to_F z) (exp_i (angle s2)))),
             mk_scalar
               (f_add (f_mul (f_sub f_one (t_to_F z)) (c_abs s1))
                      (f_mul (t_to_F z) (c_abs s2)))
               (sig_units ht)).
Proof.
  intros Hs1 Hs2.
  pose proof (np_getitem_Ok_valid _ _ Hs1) as V1.
  pose proof (np_getitem_Ok_valid _ _ Hs2) as V2.
  assert (Hk : (k + 1 <? Z.of_nat (length (times ht)))%Z = true).
  { rewrite length_times. unfold valid_index in V2.
    apply andb_true_iff in V2. apply V2. }
  destruct (np_getitem_valid (times ht) k) as [tj Et];
    [rewrite length_times; exact V1|].
  exists (t_div (t_sub t tj) (sampling_period ht)).
  unfold spike_sample, offset. rewrite Hk, Et. cbn [andb bind].
  rewrite Hs1. cbn [bind]. rewrite Hs2. cbn [bind].
  split; reflexivity.
Qed.
End Interpolated.

Lemma interpolation_same_angle (w p : R) :
  c_add (c_scale (f_sub f_one w) (exp_i p)) (c_scale w (exp_i p)) = exp_i p.
Proof.
  unfold c_add, c_scale, c_mul, exp_i.
  cbn [re im f_add f_sub f_mul f_zero f_one f_cos f_sin R_ops].
  f_equal; ring.
Qed.

(** X10. With interpolation, when the two samples around an event
    have the same angle, the phase returned for the event is that
    angle, wherever the event lies between them (exact arithmetic on
    the samples). *)
Theorem equal_angles_interpolate_to_that_angle {Tm : Type}
        {tops : TimeOps Tm} {tval : TimeValue Tm R}
        (hilbert_transform : arg (AnalogSignal Tm R))
        (spiketrains : arg (SpikeTrain Tm)) P A T :
  spike_triggered_phase hilbert_transform spiketrains true = Ok (P, A, T) ->
  forall j st ht i t s1 s2,
    nth_error (to_list spiketrains) j = Some st ->
    nth_error (to_list hilbert_transform)
              (phase_index (length (to_list hilbert_transform)) j) = Some ht ->
    nth_error (retained ht st) i = Some t ->
    np_getitem (samples ht) (sample_index ht t) = Ok s1 ->
    np_getitem (samples ht) (sample_index ht t + 1) = Ok s2 ->
    angle s1 = angle s2 ->
    exists e, nth_error P j = Some e /\ nth_error e i = Some (angle s1).
Proof.
  intros H j st ht i t s1 s2 Hj Hht Hi Hs1 Hs2 Hang.
  destruct (entry_values _ _ _ H _ _ Hj Hht Hi)
    as [e [a [pa [HP [_ [Hs [Hp _]]]]]]].
  destruct (spike_sample_interpolated ht t _ Hs1 Hs2) as [z [_ Hsp]].
  rewrite <- Hang, interpolation_same_angle, angle_exp_i_angle in Hsp.
  rewrite Hs in Hsp. injection Hsp as Hpa. subst pa.
  exists e. split; [exact HP|exact Hp].
Qed.

(** The event at [1 / 2] between the two equal samples of the steady
    signal. *)
Lemma equal_angles_interpolate_to_that_angle_witness :
  exists P A T e,
    spike_triggered_phase (Bare steady_signal) (Bare demo_train) true
    = Ok (P, A, T)
    /\ nth_error (retained steady_signal demo_train) 1 = Some (1 # 2)
    /\ nth_error P 0 = Some e
    /\ nth_error e 1 = Some (angle (mk_complex 0%R 1%R)).
Proof.
  do 3 eexists.
  assert (Hcall : spike_triggered_phase
                    (Bare steady_signal) (Bare demo_train) true
                  = Ok (_, _, _)) by reflexivity.
  pose proof (@equal_angles_interpolate_to_that_angle
                Q _ _ (Bare steady_signal) (Bare demo_train) _ _ _ Hcall
                0%nat demo_train steady_signal 1%nat (1 # 2)
                (mk_complex 0%R 1%R) (mk_complex 0%R 1%R)
                eq_refl eq_refl eq_refl eq_refl eq_refl eq_refl) as [e H].
  exists e. split; [reflexivity|]. split; [reflexivity|exact H].
Defined.

(** * From the phases to the statistic *)

Section Pipeline.
Context {Tm F : Type} {ops : NumOps F}.
Context {tops : TimeOps Tm} {tval : TimeValue Tm F}.

Lemma as_arrays_valid (P : list (list F)) :
  as_arrays P = map (@PyArray F) (map (@array1d F) P)
  /\ Forall (fun a => ndim a = 1%nat) (map (@array1d F) P)
  /\ concat (map (@flat F) (map (@array1d F) P)) = concat P.
Proof.
  unfold as_arrays. rewrite !map_map. split; [reflexivity|]. split.
  - apply Forall_map. apply Forall_forall. intros e _. reflexivity.
  - f_equal. rewrite <- (map_id P) at 2. apply map_ext. reflexivity.
Qed.

Lemma length_concat_nonempty (P : list (list F)) :
  Forall (fun e => e <> []) P -> (length P <= length (concat P))%nat.
Proof.
  induction 1 as [|e P He _ IH]; [reflexivity|].
  cbn [concat length]. rewrite length_app.
  destruct e; [congruence|]. simpl. lia.
Qed.

Lemma phases_nonempty
      (hilbert_transform : arg (AnalogSignal Tm F))
      (spiketrains : arg (SpikeTrain Tm)) (interpolate : bool) P A T :
  spike_triggered_phase hilbert_transform spiketrains interpolate
  = Ok (P, A, T) ->
  Forall (fun e => e <> []) P.
Proof.
  intro H. apply Forall_forall. intros e He.
  apply In_nth_error in He. destruct He as [j Hj].
  destruct (result_lengths _ _ _ H) as [LP _].
  assert (Hlt : (j < length (to_list spiketrains))%nat)
    by (rewrite <- LP; apply nth_error_Some; congruence).
  destruct (nth_error (to_list spiketrains) j) as [st|] eqn:Hst;
    [|apply nth_error_None in Hst; lia].
  destruct (success_conditions _ _ _ H) as [_ Hev].
  destruct (Hev j st Hst) as [ht [Hht [Hne _]]].
  destruct (entry_of _ _ _ H _ Hst Hht) as [ps [a [t [Hps [HP _]]]]].
  rewrite Hj in HP. inversion HP; subst e.
  apply Forall2_length in Hps. intro Hnil.
  apply (f_equal (@length _)) in Hnil. rewrite length_map in Hnil.
  destruct (retained ht st); [congruence|simpl in *; lia].
Qed.
End Pipeline.

(** X16. The phases of a successful call are a valid input of
    [pairwise_phase_consistency]: with at least one spike train the
    statistic is computed over all returned phases pooled, of which
    there is at least one per spike train; with no spike train the
    list of phases is empty and pooling it raises [ValueError]. *)
Theorem phases_feed_the_statistic {Tm F : Type} {ops : NumOps F}
        {tops : TimeOps Tm} {tval : TimeValue Tm F}
        (hilbert_transform : arg (AnalogSignal Tm F))
        (spiketrains : arg (SpikeTrain Tm)) (interpolate : bool) P A T :
  spike_triggered_phase hilbert_transform spiketrains interpolate
  = Ok (P, A, T) ->
  (length (to_list spiketrains) <= length (concat P))%nat
  /\ (to_list spiketrains <> [] ->
      let n := Z.of_nat (length (concat P)) in
      pairwise_phase_consistency (PyList (as_arrays P)) "ppc0"
      = Ok (Some (f_div (np_sum (entries (dot_prod (concat P))))
                        (f_of_Z (n * n - n)))))
  /\ (to_list spiketrains = [] ->
      pairwise_phase_consistency (PyList (as_arrays P)) "ppc0"
      = Raise ValueError).
Proof.
  intro H. destruct (result_lengths _ _ _ H) as [LP _].
  destruct (as_arrays_valid P) as [Hl [Hv Hc]].
  split; [|split].
  - rewrite <- LP. apply length_concat_nonempty.
    apply (phases_nonempty _ _ _ H).
  - intros Hne n.
    assert (Hne' : map (@array1d F) P <> []).
    { destruct P; [|discriminate]. destruct (to_list spiketrains);
        [congruence|discriminate]. }
    rewrite (ppc0_unfold (PyList (as_arrays P)) Hl Hv Hne'), Hc.
    reflexivity.
  - intro Hnil. rewrite Hnil in LP. destruct P; [|discriminate].
    reflexivity.
Qed.

(** The phases of the two example trains against the example signal. *)
Lemma phases_feed_the_statistic_witness :
  exists P A T x,
    spike_triggered_phase (Bare demo_signal)
                          (PyList [demo_train; edge_train]) true
    = Ok (P, A, T)
    /\ (2 <= length (concat P))%nat
    /\ pairwise_phase_consistency (PyList (as_arrays P)) "ppc0" = Ok (Some x).
Proof.
  do 3 eexists.
  assert (Hcall : spike_triggered_phase
                    (Bare demo_signal) (PyList [demo_train; edge_train]) true
                  = Ok (_, _, _)) by reflexivity.
  pose proof (@phases_feed_the_statistic
                Q R _ _ _ (Bare demo_signal) (PyList [demo_train; edge_train])
                true _ _ _ Hcall) as [Hlen [Hppc _]].
  eexists. split; [reflexivity|]. split; [exact Hlen|].
  apply Hppc. discriminate.
Defined.

(** ** An event with offset zero *)

(** X17. Take the same call once with and once without interpolation,
    both successful. For a retained event whose offset [z], as the
    code computes it from the sample the event is indexed to, is zero
    and whose sample has a successor, the two calls return the same
    phase at the position of that event (any arithmetic on times,
    exact arithmetic on the samples). *)
Theorem zero_offset_interpolates_to_plain {Tm : Type}
        {tops : TimeOps Tm} {tval : TimeValue Tm R}
        (hilbert_transform : arg (AnalogSignal Tm R))
        (spiketrains : arg (SpikeTrain Tm))
        P1 A1 T1 P0 A0 T0 :
  spike_triggered_phase hilbert_transform spiketrains true = Ok (P1, A1, T1) ->
  spike_triggered_phase hilbert_transform spiketrains false = Ok (P0, A0, T0) ->
  forall j st ht i t z,
    nth_error (to_list spiketrains) j = Some st ->
    nth_error (to_list hilbert_transform)
              (phase_index (length (to_list hilbert_transform)) j) = Some ht ->
    nth_error (retained ht st) i = Some t ->
    offset ht t (sample_index ht t) = Ok z ->
    t_to_F z = 0%R ->
    (sample_index ht t + 1 < Z.of_nat (length (times ht)))%Z ->
    exists e1 e0 p,
      nth_error P1 j = Some e1 /\ nth_error P0 j = Some e0
      /\ nth_error e1 i = Some p /\ nth_error e0 i = Some p.
Proof.
  intros H1 H0 j st ht i t z Hj Hht Hi Hoff Hz Hk.
  destruct (phases_entry _ _ _ H1 _ Hj Hht) as [ps1 [Hps1 HP1]].
  destruct (phases_entry _ _ _ H0 _ Hj Hht) as [ps0 [Hps0 HP0]].
  destruct (Forall2_nth_error Hps1 _ Hi) as [pa1 [Hn1 Hs1]].
  destruct (Forall2_nth_error Hps0 _ Hi) as [pa0 [Hn0 Hs0]].
  destruct (spike_sample_on_sample ht t _ Hoff Hz Hk)
    as [p [a1 [a0 [E1 E0]]]].
  rewrite E1 in Hs1. rewrite E0 in Hs0. inversion Hs1. inversion Hs0.
  subst pa1 pa0.
  exists (map fst ps1), (map fst ps0), p.
  split; [exact HP1|]. split; [exact HP0|]. split.
  - rewrite nth_error_map, Hn1. reflexivity.
  - rewrite nth_error_map, Hn0. reflexivity.
Qed.

(** Binary64 times: the event at [0.2] s is indexed to the third
    sample of the sampled signal, at offset [0.0]. *)
Lemma zero_offset_interpolates_to_plain_witness :
  exists P1 A1 T1 P0 A0 T0,
    spike_triggered_phase (Bare grid_signal) (Bare on_grid_train) true
    = Ok (P1, A1, T1)
    /\ spike_triggered_phase (Bare grid_signal) (Bare on_grid_train) false
       = Ok (P0, A0, T0)
    /\ nth_error (retained grid_signal on_grid_train) 0 = Some (b64 2 10)
    /\ sample_index grid_signal (b64 2 10) = 2%Z
    /\ offset grid_signal (b64 2 10) 2 = Ok (S754_zero false)
    /\ exists e1 e0 p,
        nth_error P1 0 = Some e1 /\ nth_error P0 0 = Some e0
        /\ nth_error e1 0 = Some p /\ nth_error e0 0 = Some p.
Proof.
  do 6 eexists. split; [reflexivity|]. split; [reflexivity|].
  split; [reflexivity|]. split; [reflexivity|]. split; [reflexivity|].
  refine (@zero_offset_interpolates_to_plain
            spec_float _ _ (Bare grid_signal) (Bare on_grid_train)
            _ _ _ _ _ _ _ _ 0%nat on_grid_train grid_signal 0%nat
            (b64 2 10) (S754_zero false) _ _ _ _ _ _);
    reflexivity.
Defined.

(** ** An event inside the window and past the last sample *)

(** X18. With binary64 times an event inside the window can be indexed
    past the last sample. The signal has three samples, taken every
    [1 / 3.0] s, and stops at [1.0] s; the event at
    [0.9999999999999999] s is before the stop and is retained, its
    quotient by the sampling period rounds to [3.0], its index is [3],
    and the call raises [IndexError], with and without
    interpolation. *)
Theorem in_window_event_past_the_end :
  retained thirds_signal brink_train = spikes brink_train
  /\ length (samples thirds_signal) = 3%nat
  /\ map (sample_index thirds_signal) (spikes brink_train) = [3%Z]
  /\ spike_triggered_phase (Bare thirds_signal) (Bare brink_train) true
     = Raise IndexError
  /\ spike_triggered_phase (Bare thirds_signal) (Bare brink_train) false
     = Raise IndexError.
Proof.
  split; [reflexivity|]. split; [reflexivity|]. split; [reflexivity|].
  split; reflexivity.
Qed.
